(** * NCBI sequence scraper: the fetch / extract / aggregate pipeline of main.py

    A shallow embedding of [extract_cds_translation_genbank],
    [get_genbank_content], [scrape_ncbi_sequences] and
    [leer_accesiones_desde_contenido], and the properties of the
    specification proved about them.

    Modelling choices.
    - A Python [str] is a sequence of Unicode code points: [str := list N].
    - [re.search] is a backtracking matcher over the regex fragment the
      pattern uses (single-character atoms, greedy and lazy quantifiers,
      capture groups), with the priorities of Python's engine.
    - [print] and [asyncio.sleep] are writes to an event log and always
      succeed; [requests.get] is an oracle that, for the i-th item of the
      batch, either yields the response text or raises.
    - Exceptions are the instances of [Exception], identified with their
      [str(e)]; interrupts and cancellation are outside the model. *)

From Stdlib Require Import List NArith Arith Lia Bool String Ascii DecimalString.
Import ListNotations.
Open Scope N_scope.
Open Scope list_scope.


(** ** Strings *)

Definition char := N.
Definition str := list char.

(** A string literal of ASCII characters as a [str]. *)
Definition lit (s : string) : str := map N_of_ascii (list_ascii_of_string s).

Definition QUOTE : char := 34.     (* the double quote *)
Definition NL : char := 10.        (* line feed *)
Definition COMMA : char := 44.

(** [Py_UNICODE_ISSPACE]: the whitespace of [str.strip], [str.isspace]
    and of [\s] in a [str] pattern. *)
Definition is_space (c : char) : bool :=
  ((9 <=? c) && (c <=? 13)) || ((28 <=? c) && (c <=? 32))
  || (c =? 133) || (c =? 160) || (c =? 5760)
  || ((8192 <=? c) && (c <=? 8202))
  || (c =? 8232) || (c =? 8233) || (c =? 8239) || (c =? 8287) || (c =? 12288).

(** ** Case-insensitive literals (re.IGNORECASE on a [str] pattern)

    A cased pattern character [pc] is compiled to its lower case [lo]; a
    subject character [ch] matches when the lower case of [ch] is [lo] or
    one of the engine's extra equivalents of [lo] (dotless i for i, long s
    for s).  The table covers ASCII pattern characters. *)

Definition is_ascii_upper (c : char) : bool := (65 <=? c) && (c <=? 90).
Definition is_ascii_lower (c : char) : bool := (97 <=? c) && (c <=? 122).

Definition ascii_tolower (c : char) : char :=
  if is_ascii_upper c then c + 32 else c.

(** The code points whose simple lower-case mapping is the ASCII letter
    [lo]: the letter, its capital, U+0130 for i and U+212A for k. *)
Definition lowers_to (lo ch : char) : bool :=
  (ch =? lo) || (ch + 32 =? lo)
  || ((lo =? 105) && (ch =? 304)) || ((lo =? 107) && (ch =? 8490)).

Definition ignorecase_fixes (lo : char) : list char :=
  if lo =? 105 then [305]          (* i: U+0131 *)
  else if lo =? 115 then [383]     (* s: U+017F *)
  else [].

Definition literal_ic (pc ch : char) : bool :=
  if is_ascii_upper pc || is_ascii_lower pc then
    let lo := ascii_tolower pc in
    lowers_to lo ch || existsb (N.eqb ch) (ignorecase_fixes lo)
  else ch =? pc.

(** ** A backtracking matcher for the regex fragment of the pattern *)

Inductive quant := One | Star (greedy : bool) | Plus (greedy : bool).

Record item := Item {
  cls : char -> bool;     (* the single-character atom *)
  qnt : quant;
  grp : bool              (* inside a capture group *)
}.

Definition regex := list item.

(** Captures of the rest of the match, with the text [t] consumed by a
    capturing item put in front. *)
Definition with_capture (g : bool) (t : str) (caps : list str) : list str :=
  if g then t :: caps else caps.

Section Loops.
Variable p : char -> bool.
(** The continuation: the rest of the pattern at a subject position. *)
Variable k : str -> option (list str).

Definition stop (s : str) : option (str * list str) :=
  option_map (fun caps => ([], caps)) (k s).

Definition consumed (c : char) (r : option (str * list str))
  : option (str * list str) :=
  option_map (fun tc => (c :: fst tc, snd tc)) r.

(** Greedy repetition: take one more character first, give it back when
    the rest fails. *)
Fixpoint greedy_loop (s : str) : option (str * list str) :=
  match s with
  | c :: s' =>
      if p c then
        match greedy_loop s' with
        | Some r => consumed c (Some r)
        | None => stop s
        end
      else stop s
  | [] => stop s
  end.

(** Lazy repetition: try the rest first, take one more character when
    it fails. *)
Fixpoint lazy_loop (s : str) : option (str * list str) :=
  match stop s with
  | Some r => Some r
  | None =>
      match s with
      | c :: s' => if p c then consumed c (lazy_loop s') else None
      | [] => None
      end
  end.

Definition star_loop (greedy : bool) : str -> option (str * list str) :=
  if greedy then greedy_loop else lazy_loop.

Definition plus_loop (greedy : bool) (s : str) : option (str * list str) :=
  match s with
  | c :: s' => if p c then consumed c (star_loop greedy s') else None
  | [] => None
  end.
End Loops.

(** [match_here r s]: match [r] at the start of [s]; the captures of the
    first successful path, in group order. *)
Fixpoint match_here (r : regex) (s : str) : option (list str) :=
  match r with
  | [] => Some []
  | it :: r' =>
      let finish := option_map (fun tc => with_capture (grp it) (fst tc) (snd tc)) in
      match qnt it with
      | One =>
          match s with
          | c :: s' =>
              if cls it c
              then option_map (with_capture (grp it) [c]) (match_here r' s')
              else None
          | [] => None
          end
      | Star g => finish (star_loop (cls it) (match_here r') g s)
      | Plus g => finish (plus_loop (cls it) (match_here r') g s)
      end
  end.

(** [re.search]: the first start position, left to right, with a match. *)
Fixpoint search (r : regex) (s : str) : option (list str) :=
  match match_here r s with
  | Some caps => Some caps
  | None =>
      match s with
      | [] => None
      | _ :: s' => search r s'
      end
  end.

(** ** The pattern of line 30, under DOTALL | IGNORECASE

    CDS, one or more whitespace (greedy), any characters (lazy), the tag
    /translation= and an opening quote, a captured greedy run of
    non-quote characters, a closing quote. *)

Definition any_char (_ : char) : bool := true.      (* [.] under DOTALL *)
Definition not_quote (c : char) : bool := negb (c =? QUOTE).

Definition literals (s : str) : regex :=
  map (fun pc => Item (literal_ic pc) One false) s.

Definition KEYWORD : str := lit "CDS".
Definition TAG : str := lit "/translation=" ++ [QUOTE].

Definition attribute : regex :=
  literals TAG ++ [Item not_quote (Star true) true; Item (literal_ic QUOTE) One false].

Definition pattern : regex :=
  literals KEYWORD
  ++ [Item is_space (Plus true) false; Item any_char (Star false) false]
  ++ attribute.

(** [re.sub(r'\s+', '', raw)]: every run of whitespace is replaced by the
    empty string, the other characters are copied. *)
Fixpoint remove_whitespace (s : str) : str :=
  match s with
  | [] => []
  | c :: s' => if is_space c then remove_whitespace s' else c :: remove_whitespace s'
  end.

Definition extract_cds_translation_genbank (genbank_content : str) : option str :=
  match search pattern genbank_content with
  | Some caps => Some (remove_whitespace (nth 0%nat caps []))
  | None => None
  end.


(** ** Effects: exceptions, the event log, the result list *)

(** An exception, identified with its [str(e)]. *)
Definition exn := str.

Inductive outcome (A : Type) : Type :=
| Ok (a : A)
| Raise (e : exn).
Arguments Ok {A} a.
Arguments Raise {A} e.

(** What a called function does: the lines it prints, then its return
    value or the exception it raises. *)
Definition callee (A : Type) : Type := (list str * outcome A)%type.

Inductive event :=
| Print (msg : str)
| Sleep (seconds : N).

(** One dictionary of the result list (keys ID, SEQUENCE, estado). *)
Record row := Row { ID : str; SEQUENCE : str; estado : str }.

(** The state of one invocation: the local list [results], mutated in
    place by [append], and the log of prints and sleeps. *)
Record state := State { results : list row; log : list event }.

Definition M (A : Type) : Type := state -> state * outcome A.

Definition ret {A} (a : A) : M A := fun s => (s, Ok a).

Definition bind {A B} (m : M A) (f : A -> M B) : M B :=
  fun s =>
    match m s with
    | (s', Ok a) => f a s'
    | (s', Raise e) => (s', Raise e)
    end.

Notation "x <- m ; f" := (bind m (fun x => f))
  (at level 61, m at next level, right associativity).
Notation "m ;; f" := (bind m (fun _ => f))
  (at level 61, right associativity).

(** [try: m except Exception as e: h e].  The state reached when [m]
    raised is kept: an [append] done before the exception stays. *)
Definition try_except {A} (m : M A) (h : exn -> M A) : M A :=
  fun s =>
    match m s with
    | (s', Ok a) => (s', Ok a)
    | (s', Raise e) => h e s'
    end.

Definition emit (ev : event) : M unit :=
  fun s => (State (results s) (log s ++ [ev]), Ok tt).

Definition print (msg : str) : M unit := emit (Print msg).
Definition sleep (seconds : N) : M unit := emit (Sleep seconds).

Definition append (r : row) : M unit :=
  fun s => (State (results s ++ [r]) (log s), Ok tt).

Definition get_results : M (list row) := fun s => (s, Ok (results s)).
Definition new_results : M unit := fun s => (State [] (log s), Ok tt).

Definition call {A} (c : callee A) : M A :=
  fun s => (State (results s) (log s ++ map Print (fst c)), snd c).

(** Truthiness of a value that is [None] or a [str]. *)
Definition truthy (o : option str) : bool :=
  match o with
  | Some (_ :: _) => true
  | _ => false
  end.

Definition text_of (o : option str) : str :=
  match o with
  | Some s => s
  | None => []
  end.

(** ** The fetcher *)

Definition url_of (accession : str) : str :=
  lit "https://www.ncbi.nlm.nih.gov/sviewer/viewer.fcgi?id=" ++ accession
  ++ lit "&db=nuccore&report=genbank&retmode=text".

Section Fetcher.
(** Lines 48-50 for one call: [requests.get(url, timeout)],
    [raise_for_status()], [response.text]; the text, or the exception
    of a timeout, a non-2xx status or a transport failure. *)
Variable requests_get : str -> N -> outcome str.

Definition get_genbank_content (accession : str) : callee (option str) :=
  let url := url_of accession in
  match requests_get url 15 with
  | Ok text => ([], Ok (Some text))
  | Raise e =>
      ([lit "Error obteniendo GenBank para " ++ accession ++ lit ": " ++ e],
       Ok None)
  end.
End Fetcher.

(** ** The batch pipeline *)

Definition CHECK : char := 10003.   (* U+2713 *)
Definition CROSS : char := 10007.   (* U+2717 *)

Definition EXITO : str := [233] ++ lit "xito".               (* U+00E9 xito *)
Definition NO_ENCONTRADA : str := lit "secuencia no encontrada".
Definition ERROR : str := lit "error".

Definition decimal (n : nat) : str := lit (NilZero.string_of_uint (Nat.to_uint n)).

Definition mark (accession : str) : str := lit ">" ++ accession.

Definition success_row (accession sequence : str) : row :=
  Row (mark accession) sequence EXITO.
Definition not_found_row (accession : str) : row :=
  Row (mark accession) (lit "No encontrada en GenBank") NO_ENCONTRADA.
Definition fetch_error_row (accession : str) : row :=
  Row (mark accession) (lit "Error obteniendo GenBank") ERROR.
Definition fault_row (accession : str) (e : exn) : row :=
  Row (mark accession) (lit "Error: " ++ e) ERROR.

Section Batch.
(** The two functions the loop calls, as they behave for the item at
    position [i] of the batch.  The loop looks them up by name at each
    call; their behaviour is a parameter here, so that the handler of
    the loop can be studied against callees that raise. *)
Variable fetch : nat -> str -> callee (option str).
Variable extract : nat -> str -> callee (option str).

(** Lines 64-93: the body of the [try]. *)
Definition try_body (i : nat) (accession : str) : M unit :=
  genbank_content <- call (fetch i accession) ;
  if truthy genbank_content then
    sequence <- call (extract i (text_of genbank_content)) ;
    if truthy sequence then
      append (success_row accession (text_of sequence)) ;;
      print ([CHECK] ++ lit " Secuencia encontrada para " ++ accession) ;;
      print (lit "  Longitud: " ++ decimal (List.length (text_of sequence))
             ++ lit " amino" ++ [225] ++ lit "cidos") ;;
      print (lit "  Primeros 50: " ++ firstn 50 (text_of sequence))
    else
      append (not_found_row accession) ;;
      print ([CROSS] ++ lit " Secuencia NO encontrada para " ++ accession)
  else
    append (fetch_error_row accession) ;;
    print ([CROSS] ++ lit " Error obteniendo GenBank para " ++ accession).

(** Lines 95-101: the handler. *)
Definition handler (accession : str) (e : exn) : M unit :=
  append (fault_row accession e) ;;
  print ([CROSS] ++ lit " Error general para " ++ accession ++ lit ": " ++ e).

(** Lines 62-104: one iteration of the loop. *)
Definition process_item (i : nat) (accession : str) : M unit :=
  print (lit "Procesando: " ++ accession) ;;
  try_except (try_body i accession) (handler accession) ;;
  sleep 1.

Fixpoint for_each (i : nat) (accession_list : list str) : M unit :=
  match accession_list with
  | [] => ret tt
  | accession :: rest => process_item i accession ;; for_each (S i) rest
  end.

Definition scrape_with (accession_list : list str) : M (list row) :=
  new_results ;;
  for_each 0 accession_list ;;
  get_results.
End Batch.

Definition initial : state := State [] [].

(** The pipeline as the source wires it: the fetcher over the network
    oracle (the i-th item's request) and the pure extraction function. *)
Definition scrape_ncbi_sequences
    (requests_get : nat -> str -> N -> outcome str) (accession_list : list str)
  : M (list row) :=
  scrape_with (fun i => get_genbank_content (requests_get i))
              (fun _ content => ([], Ok (extract_cds_translation_genbank content)))
              accession_list.

(** ** The accession parser *)

Fixpoint lstrip (s : str) : str :=
  match s with
  | c :: s' => if is_space c then lstrip s' else s
  | [] => []
  end.

Definition rstrip (s : str) : str := rev (lstrip (rev s)).
Definition strip (s : str) : str := rstrip (lstrip s).

(** [s.split(',')]: the pieces between the commas; never an empty list. *)
Fixpoint split_comma (s : str) : list str :=
  match s with
  | [] => [[]]
  | c :: s' =>
      if c =? COMMA then [] :: split_comma s'
      else match split_comma s' with
           | t :: ts => (c :: t) :: ts
           | [] => [[c]]
           end
  end.

Definition nonempty (s : str) : bool :=
  match s with
  | [] => false
  | _ :: _ => true
  end.

(** Lines 112-117; nothing in the [try] raises on a [str]. *)
Definition leer_accesiones_desde_contenido (contenido : str) : list str :=
  let contenido := strip contenido in
  if nonempty contenido
  then map strip (filter (fun acc => nonempty (strip acc)) (split_comma contenido))
  else [].

(** ** What the batch is expected to hold *)

Section Expected.
Variable fetch : nat -> str -> callee (option str).
Variable extract : nat -> str -> callee (option str).

(** The row of the item at position [i], from the outcomes of its two
    calls. *)
Definition row_for (i : nat) (accession : str) : row :=
  match snd (fetch i accession) with
  | Raise e => fault_row accession e
  | Ok genbank_content =>
      if truthy genbank_content then
        match snd (extract i (text_of genbank_content)) with
        | Raise e => fault_row accession e
        | Ok sequence =>
            if truthy sequence
            then success_row accession (text_of sequence)
            else not_found_row accession
        end
      else fetch_error_row accession
  end.

Fixpoint rows_from (i : nat) (accession_list : list str) : list row :=
  match accession_list with
  | [] => []
  | accession :: rest => row_for i accession :: rows_from (S i) rest
  end.

(** What one iteration logs before its pacing sleep. *)
Definition item_events (i : nat) (accession : str) : list event :=
  log (fst ((print (lit "Procesando: " ++ accession) ;;
             try_except (try_body fetch extract i accession) (handler accession))
              initial)).

Fixpoint events_from (i : nat) (accession_list : list str) : list event :=
  match accession_list with
  | [] => []
  | accession :: rest =>
      item_events i accession ++ [Sleep 1] ++ events_from (S i) rest
  end.
End Expected.

Definition is_sleep (ev : event) : bool :=
  match ev with
  | Sleep _ => true
  | Print _ => false
  end.

Definition count_sleeps (evs : list event) : nat :=
  List.length (filter is_sleep evs).

(** The rows and the log of a run, and whether it returned. *)
Definition rows_of {A} (r : state * outcome A) : list row := results (fst r).
Definition log_of {A} (r : state * outcome A) : list event := log (fst r).

(** ** The specification's reading of the extractor and of the parser *)

(** [t] is the literal [pat] up to case. *)
Fixpoint matches_literal (pat t : str) : bool :=
  match pat, t with
  | [], [] => true
  | pc :: pat', c :: t' => literal_ic pc c && matches_literal pat' t'
  | _, _ => false
  end.

(** [s] begins with the literal [pat] up to case. *)
Fixpoint starts_with (pat s : str) : bool :=
  match pat with
  | [] => true
  | pc :: pat' =>
      match s with
      | c :: s' => literal_ic pc c && starts_with pat' s'
      | [] => false
      end
  end.

Definition all_space (s : str) : bool := forallb is_space s.
Definition no_quote (s : str) : bool := forallb not_quote s.

(** Somewhere in [content]: the keyword, whitespace, any text, the tag
    with its opening quote, a payload without quotes, a closing quote. *)
Definition has_cds_translation (content : str) : Prop :=
  exists pre cds ws mid tag payload post,
    content = pre ++ cds ++ ws ++ mid ++ tag ++ payload ++ [QUOTE] ++ post
    /\ matches_literal KEYWORD cds = true
    /\ ws <> [] /\ all_space ws = true
    /\ matches_literal TAG tag = true
    /\ no_quote payload = true.

(** The keyword followed by a whitespace character begins [s]. *)
Definition keyword_at (s : str) : bool :=
  starts_with KEYWORD s
  && match skipn 3 s with
     | w :: _ => is_space w
     | [] => false
     end.

(** The keyword and a whitespace character lie somewhere within [s]. *)
Fixpoint has_keyword (s : str) : bool :=
  keyword_at s
  || match s with
     | [] => false
     | _ :: s' => has_keyword s'
     end.

(** No occurrence of the tag begins at one of the first [n] positions
    of [s]. *)
Fixpoint no_tag_in_first (n : nat) (s : str) : bool :=
  match n with
  | O => true
  | S n' =>
      negb (starts_with TAG s)
      && match s with
         | [] => true
         | _ :: s' => no_tag_in_first n' s'
         end
  end.

(** No occurrence of the keyword with its whitespace begins at one of
    the first [n] positions of [s]. *)
Fixpoint no_keyword_in_first (n : nat) (s : str) : bool :=
  match n with
  | O => true
  | S n' =>
      negb (keyword_at s)
      && match s with
         | [] => true
         | _ :: s' => no_keyword_in_first n' s'
         end
  end.

(** An exception [e] escapes one of the two calls made for the item at
    position [i]: the fetch, or the extraction on content that was
    fetched. *)
Definition raises_at (fetch extract : nat -> str -> callee (option str))
    (i : nat) (accession : str) (e : exn) : Prop :=
  snd (fetch i accession) = Raise e
  \/ exists genbank_content,
       snd (fetch i accession) = Ok genbank_content
       /\ truthy genbank_content = true
       /\ snd (extract i (text_of genbank_content)) = Raise e.

(** The parser in the specification's words: split on commas, trim each
    token, discard the empty ones. *)
Definition parse_spec (text : str) : list str :=
  filter nonempty (map strip (split_comma text)).

(** ** Helpers of the proofs about the matcher *)

(** The payload that begins [s]: the text before the first quote. *)
Fixpoint payload_of (s : str) : option str :=
  match s with
  | [] => None
  | c :: s' => if c =? QUOTE then Some [] else option_map (cons c) (payload_of s')
  end.

(** The attribute (tag, payload, closing quote) that begins [s]. *)
Definition attribute_at (s : str) : option str :=
  if starts_with TAG s then payload_of (skipn (List.length TAG) s) else None.

(** The first attribute at or after the start of [s]. *)
Fixpoint first_attribute (s : str) : option str :=
  match attribute_at s with
  | Some p => Some p
  | None =>
      match s with
      | [] => None
      | _ :: s' => first_attribute s'
      end
  end.

(** The text after the leftmost keyword and its first whitespace. *)
Fixpoint after_keyword (s : str) : option str :=
  if keyword_at s then Some (skipn 4 s)
  else match s with
       | [] => None
       | _ :: s' => after_keyword s'
       end.

(** ** The upload endpoint (lines 122-167) *)

Fixpoint str_eqb (a b : str) : bool :=
  match a, b with
  | [], [] => true
  | x :: a', y :: b' => (x =? y) && str_eqb a' b'
  | _, _ => false
  end.

(** [s.endswith(suffix)] *)
Definition endswith (s suffix : str) : bool :=
  (List.length suffix <=? List.length s)%nat
  && str_eqb (skipn (List.length s - List.length suffix) s) suffix.

(** What the endpoint can raise: an [HTTPException], or any other
    [Exception] (identified with its [str(e)]). *)
Inductive raised :=
| HTTPException (status_code : N) (detail : str)
| OtherException (e : exn).

Inductive result (A : Type) : Type :=
| Returned (a : A)
| Raised (r : raised).
Arguments Returned {A} a.
Arguments Raised {A} r.

Record FileResponse := MkFileResponse {
  path : str;
  filename : str;
  media_type : str;
  headers : list (str * str)
}.

(** What one request to the endpoint leaves behind: the log of the
    pipeline, and the tables written, each with its path. *)
Record world := World { wlog : list event; written : list (str * list row) }.

Definition W (A : Type) : Type := world -> world * result A.

Definition wret {A} (a : A) : W A := fun w => (w, Returned a).
Definition wraise {A} (r : raised) : W A := fun w => (w, Raised r).

Definition wbind {A B} (m : W A) (f : A -> W B) : W B :=
  fun w =>
    match m w with
    | (w', Returned a) => f a w'
    | (w', Raised r) => (w', Raised r)
    end.

Notation "x <-- m ; f" := (wbind m (fun x => f))
  (at level 61, m at next level, right associativity).

(** A call that returns or raises an ordinary exception. *)
Definition wlift {A} (o : outcome A) : W A :=
  fun w =>
    match o with
    | Ok a => (w, Returned a)
    | Raise e => (w, Raised (OtherException e))
    end.

(** Lines 164-167: an [HTTPException] is raised again as it is, any
    other exception becomes an [HTTPException] with status 500. *)
Definition except_handlers {A} (m : W A) : W A :=
  fun w =>
    match m w with
    | (w', Raised (OtherException e)) =>
        (w', Raised (HTTPException 500 (lit "Error en el procesamiento: " ++ e)))
    | r => r
    end.

Section Endpoint.
(** The collaborators of one request: the network, the codec, the
    random identifier, the temporary directory, the path join of the
    platform, and the table writer ([pd.DataFrame(rows).to_csv(path)]). *)
Variable requests_get : nat -> str -> N -> outcome str.
Variable decode_utf8 : list N -> outcome str.
Variable uuid4 : str.
Variable gettempdir : str.
Variable path_join : str -> str -> str.
Variable to_csv : str -> list row -> outcome unit.

(** [await scrape_ncbi_sequences(accesiones)] *)
Definition run_pipeline (accesiones : list str) : W (list row) :=
  fun w =>
    let r := scrape_ncbi_sequences requests_get accesiones (State [] (wlog w)) in
    (World (log (fst r)) (written w),
     match snd r with
     | Ok resultados => Returned resultados
     | Raise e => Raised (OtherException e)
     end).

Definition write_csv (temp_output : str) (resultados : list row) : W unit :=
  fun w =>
    match to_csv temp_output resultados with
    | Ok _ => (World (wlog w) (written w ++ [(temp_output, resultados)]), Returned tt)
    | Raise e => (w, Raised (OtherException e))
    end.

Definition extract_sequences (file_filename : str) (file_read : outcome (list N))
  : W FileResponse :=
  if negb (endswith file_filename (lit ".txt")) then
    wraise (HTTPException 400 (lit "Solo se permiten archivos .txt"))
  else
    except_handlers
      (content <-- wlift file_read ;
       contenido_texto <-- wlift (decode_utf8 content) ;
       let accesiones := leer_accesiones_desde_contenido contenido_texto in
       match accesiones with
       | [] =>
           wraise (HTTPException 400
                     (lit "No se pudieron leer las accesiones del archivo"))
       | _ :: _ =>
           resultados <-- run_pipeline accesiones ;
           let unique_id := firstn 8 uuid4 in
           let temp_output :=
             path_join gettempdir (lit "secuencias_" ++ unique_id ++ lit ".csv") in
           _ <-- write_csv temp_output resultados ;
           let exitos :=
             List.length (filter (fun r => str_eqb (estado r) EXITO) resultados) in
           wret (MkFileResponse
                   temp_output
                   (lit "secuencias_" ++ unique_id ++ lit ".csv")
                   (lit "text/csv")
                   [(lit "Content-Disposition",
                     lit "attachment; filename=secuencias_" ++ unique_id ++ lit ".csv")])
       end).
End Endpoint.

Definition fresh : world := World [] [].

(** A character that is whitespace or the comma. *)
Definition space_or_comma (c : char) : bool := is_space c || (c =? COMMA).

(** * Proofs *)

(** ** The definitions at work *)

Example literal_ic_letters :
  literal_ic 83 115 = true /\ literal_ic 83 383 = true       (* S: s, long s *)
  /\ literal_ic 105 73 = true /\ literal_ic 105 304 = true  (* i: I, U+0130 *)
  /\ literal_ic 105 305 = true /\ literal_ic 67 75 = false.
Proof. repeat split. Qed.

Example scrape_three_outcomes :
  snd (scrape_ncbi_sequences
         (fun i _ _ =>
            match i with
            | O => Ok (lit "CDS 1..9 /translation=" ++ [QUOTE] ++ lit "MK V" ++ [QUOTE])
            | S O => Raise (lit "timeout")
            | _ => Ok (lit "LOCUS")
            end)
         [lit "A1"; lit "B2"; lit "C3"] initial)
  = Ok [success_row (lit "A1") (lit "MKV"); fetch_error_row (lit "B2");
        not_found_row (lit "C3")].
Proof. vm_compute. reflexivity. Qed.

(** ** Characters *)

Arguments literal_ic : simpl never.
Arguments is_space : simpl never.

Lemma literal_ic_quote (c : char) : literal_ic QUOTE c = (c =? QUOTE).
Proof. reflexivity. Qed.

Lemma literal_ic_slash (c : char) : literal_ic 47 c = (c =? 47).
Proof. reflexivity. Qed.

Lemma space_not_slash (c : char) : is_space c = true -> (c =? 47) = false.
Proof.
  intros H. destruct (N.eqb_spec c 47) as [->|]; [discriminate H | reflexivity].
Qed.

Lemma space_not_comma (c : char) : is_space c = true -> (c =? COMMA) = false.
Proof.
  intros H. destruct (N.eqb_spec c COMMA) as [->|]; [discriminate H | reflexivity].
Qed.

Lemma space_starts_no_tag (c : char) (s : str) :
  is_space c = true -> starts_with TAG (c :: s) = false.
Proof.
  intros H. change (literal_ic 47 c && starts_with (tl TAG) s = false).
  rewrite literal_ic_slash, (space_not_slash _ H). reflexivity.
Qed.

(** ** Literals *)

Lemma option_map_id {A} (f : A -> A) (o : option A) :
  (forall a, f a = a) -> option_map f o = o.
Proof. intros H. destruct o; simpl; [rewrite H|]; reflexivity. Qed.

Lemma match_here_literals (pat : str) (r : regex) (s : str) :
  match_here (literals pat ++ r) s
  = if starts_with pat s then match_here r (skipn (List.length pat) s) else None.
Proof.
  revert s. induction pat as [|pc pat IH]; intros s.
  - reflexivity.
  - destruct s as [|c s]; [reflexivity|].
    cbn [literals map app match_here qnt cls grp starts_with List.length skipn].
    destruct (literal_ic pc c); [|reflexivity].
    cbn [andb]. rewrite option_map_id by reflexivity.
    apply IH.
Qed.

Lemma starts_with_split (pat s : str) :
  starts_with pat s = true ->
  s = firstn (List.length pat) s ++ skipn (List.length pat) s
  /\ matches_literal pat (firstn (List.length pat) s) = true.
Proof.
  revert s. induction pat as [|pc pat IH]; intros s H.
  - split; reflexivity.
  - destruct s as [|c s]; [discriminate|]. cbn in H.
    apply andb_true_iff in H as [Hc Hs]. destruct (IH _ Hs) as [E M'].
    split.
    + cbn. f_equal. exact E.
    + cbn. rewrite Hc. exact M'.
Qed.

Lemma matches_literal_length (pat t : str) :
  matches_literal pat t = true -> List.length t = List.length pat.
Proof.
  revert t. induction pat as [|pc pat IH]; intros [|c t] H; try discriminate.
  - reflexivity.
  - cbn in H. apply andb_true_iff in H as [_ H]. cbn. f_equal. auto.
Qed.

Lemma matches_literal_starts (pat t s : str) :
  matches_literal pat t = true -> starts_with pat (t ++ s) = true.
Proof.
  revert t. induction pat as [|pc pat IH]; intros [|c t] H; try discriminate.
  - reflexivity.
  - cbn in H |- *. apply andb_true_iff in H as [Hc H]. rewrite Hc. cbn. auto.
Qed.

Lemma skipn_app_length {A} (t s : list A) n :
  List.length t = n -> skipn n (t ++ s) = s.
Proof.
  intros <-. induction t; cbn; auto.
Qed.

(** ** The attribute: tag, payload, closing quote *)

Lemma greedy_payload (s : str) :
  greedy_loop not_quote (match_here [Item (literal_ic QUOTE) One false]) s
  = option_map (fun p => (p, [])) (payload_of s).
Proof.
  induction s as [|c s IH].
  - reflexivity.
  - cbn [greedy_loop payload_of]. unfold not_quote at 1.
    destruct (c =? QUOTE) eqn:E; cbn [negb].
    + unfold stop. cbn [match_here qnt cls grp]. rewrite literal_ic_quote, E.
      reflexivity.
    + rewrite IH. destruct (payload_of s) as [p|]; cbn.
      * reflexivity.
      * unfold stop. cbn [match_here qnt cls grp]. rewrite literal_ic_quote, E.
        reflexivity.
Qed.

Lemma match_here_payload (s : str) :
  match_here [Item not_quote (Star true) true; Item (literal_ic QUOTE) One false] s
  = option_map (fun p => [p]) (payload_of s).
Proof.
  cbn [match_here qnt cls grp star_loop]. rewrite greedy_payload.
  destruct (payload_of s); reflexivity.
Qed.

Lemma match_here_attribute (s : str) :
  match_here attribute s = option_map (fun p => [p]) (attribute_at s).
Proof.
  unfold attribute, attribute_at. rewrite match_here_literals.
  destruct (starts_with TAG s); [apply match_here_payload | reflexivity].
Qed.

Lemma search_attribute (s : str) :
  search attribute s = option_map (fun p => [p]) (first_attribute s).
Proof.
  induction s as [|c s IH]; cbn [search first_attribute];
    rewrite match_here_attribute; destruct (attribute_at _); cbn; auto.
Qed.

(** ** The lazy and the greedy repetition in front of it *)

Lemma lazy_any_search (r : regex) (s : str) :
  option_map snd (lazy_loop any_char (match_here r) s) = search r s.
Proof.
  induction s as [|c s IH]; cbn [lazy_loop search]; unfold stop;
    destruct (match_here r _) as [caps|]; cbn; try reflexivity.
  rewrite <- IH. destruct (lazy_loop any_char (match_here r) s); reflexivity.
Qed.

Lemma match_here_lazy_any (r : regex) (s : str) :
  match_here (Item any_char (Star false) false :: r) s = search r s.
Proof.
  cbn [match_here qnt cls grp star_loop]. rewrite <- lazy_any_search.
  destruct (lazy_loop _ _ s) as [[t caps]|]; reflexivity.
Qed.

Lemma greedy_space_first_attribute (k : str -> option (list str)) (s : str) :
  (forall s', k s' = option_map (fun p => [p]) (first_attribute s')) ->
  option_map snd (greedy_loop is_space k s)
  = option_map (fun p => [p]) (first_attribute s).
Proof.
  intros Hk. induction s as [|c s IH].
  - cbn [greedy_loop]. unfold stop. rewrite Hk. destruct (first_attribute []); reflexivity.
  - cbn [greedy_loop]. destruct (is_space c) eqn:Ec.
    + destruct (greedy_loop is_space k s) as [[t caps]|] eqn:G.
      * cbn in IH |- *. rewrite IH. cbn [first_attribute].
        unfold attribute_at. rewrite (space_starts_no_tag _ _ Ec). reflexivity.
      * unfold stop. rewrite Hk. destruct (first_attribute (c :: s)); reflexivity.
    + unfold stop. rewrite Hk. destruct (first_attribute (c :: s)); reflexivity.
Qed.

Lemma skipn_S_tl {A} n (l : list A) : skipn (S n) l = tl (skipn n l).
Proof.
  revert l. induction n as [|n IH]; intros [|a l]; try reflexivity.
  exact (IH l).
Qed.

Lemma match_here_plus p g gr (r : regex) (s : str) :
  match_here (Item p (Plus g) gr :: r) s
  = option_map (fun tc => with_capture gr (fst tc) (snd tc))
      (plus_loop p (match_here r) g s).
Proof. reflexivity. Qed.

Lemma match_here_space_lazy_attribute (s : str) :
  match_here ([Item is_space (Plus true) false; Item any_char (Star false) false]
                ++ attribute) s
  = match s with
    | w :: s' =>
        if is_space w then option_map (fun p => [p]) (first_attribute s') else None
    | [] => None
    end.
Proof.
  cbn [app]. rewrite match_here_plus. unfold plus_loop, star_loop.
  destruct s as [|w s']; [reflexivity|].
  destruct (is_space w); [|reflexivity].
  rewrite <- (greedy_space_first_attribute
                (match_here (Item any_char (Star false) false :: attribute)) s').
  - destruct (greedy_loop _ _ s') as [[t caps]|]; reflexivity.
  - intros s0. rewrite match_here_lazy_any. apply search_attribute.
Qed.

Lemma match_here_pattern (s : str) :
  match_here pattern s
  = if keyword_at s
    then option_map (fun p => [p]) (first_attribute (skipn 4 s))
    else None.
Proof.
  unfold pattern, keyword_at. rewrite match_here_literals.
  destruct (starts_with KEYWORD s); [|reflexivity].
  rewrite match_here_space_lazy_attribute.
  replace (List.length KEYWORD) with 3%nat by reflexivity.
  rewrite (skipn_S_tl 3 s).
  destruct (skipn 3 s) as [|w s3]; reflexivity.
Qed.

(** ** The search *)

Lemma first_attribute_suffix (pre s : str) :
  first_attribute (pre ++ s) = None -> first_attribute s = None.
Proof.
  induction pre as [|c pre IH]; [auto|].
  cbn [app first_attribute]. destruct (attribute_at _); [discriminate | exact IH].
Qed.

Lemma keyword_at_length (s : str) : keyword_at s = true -> (4 <= List.length s)%nat.
Proof.
  unfold keyword_at. intros H. apply andb_true_iff in H as [_ H].
  destruct s as [|a [|b [|c [|d s]]]]; cbn in H; try discriminate. cbn. lia.
Qed.

Lemma after_keyword_suffix (s rest : str) :
  after_keyword s = Some rest ->
  exists pre, s = pre ++ rest /\ (4 <= List.length pre)%nat.
Proof.
  revert rest. induction s as [|c s IH]; intros rest H.
  - cbn in H. discriminate.
  - cbn [after_keyword] in H. destruct (keyword_at (c :: s)) eqn:K.
    + injection H as <-. exists (firstn 4 (c :: s)). split.
      * symmetry. apply firstn_skipn.
      * apply keyword_at_length in K. rewrite length_firstn. lia.
    + destruct (IH _ H) as (pre & -> & L). exists (c :: pre). split; [reflexivity|].
      cbn. lia.
Qed.

Lemma search_pattern (s : str) :
  search pattern s
  = match after_keyword s with
    | Some rest => option_map (fun p => [p]) (first_attribute rest)
    | None => None
    end.
Proof.
  induction s as [|c s IH].
  - reflexivity.
  - cbn [search after_keyword]. rewrite match_here_pattern.
    destruct (keyword_at (c :: s)) eqn:K; [|exact IH].
    destruct (first_attribute (skipn 4 (c :: s))) as [p|] eqn:F; [reflexivity|].
    cbn [option_map]. rewrite IH.
    destruct (after_keyword s) as [rest|] eqn:A; [|reflexivity].
    destruct (after_keyword_suffix _ _ A) as (pre & -> & L).
    change (skipn 4 (c :: pre ++ rest)) with (skipn 3 (pre ++ rest)) in F.
    rewrite skipn_app in F.
    replace (3 - List.length pre)%nat with 0%nat in F by lia. cbn [skipn] in F.
    rewrite (first_attribute_suffix _ _ F). reflexivity.
Qed.

(** *** Soundness: a match is an occurrence in the specification's sense *)

Lemma payload_of_split (s p : str) :
  payload_of s = Some p ->
  exists post, s = p ++ [QUOTE] ++ post /\ no_quote p = true.
Proof.
  revert p. induction s as [|c s IH]; intros p H; [discriminate|].
  cbn [payload_of] in H. destruct (N.eqb_spec c QUOTE) as [->|Hc].
  - injection H as <-. exists s. split; reflexivity.
  - destruct (payload_of s) as [p'|]; [|discriminate]. injection H as <-.
    destruct (IH _ eq_refl) as (post & -> & Q). exists post. split; [reflexivity|].
    cbn. unfold not_quote at 1. apply N.eqb_neq in Hc. rewrite Hc. exact Q.
Qed.

Lemma attribute_at_split (s p : str) :
  attribute_at s = Some p ->
  exists tag post,
    s = tag ++ p ++ [QUOTE] ++ post
    /\ matches_literal TAG tag = true /\ no_quote p = true.
Proof.
  unfold attribute_at. intros H. destruct (starts_with TAG s) eqn:S; [|discriminate].
  destruct (starts_with_split _ _ S) as [E M'].
  destruct (payload_of_split _ _ H) as (post & E' & Q).
  exists (firstn (List.length TAG) s), post. repeat split; auto.
  rewrite <- E'. exact E.
Qed.

Lemma first_attribute_split (s p : str) :
  first_attribute s = Some p ->
  exists mid tag post,
    s = mid ++ tag ++ p ++ [QUOTE] ++ post
    /\ matches_literal TAG tag = true /\ no_quote p = true.
Proof.
  induction s as [|c s IH]; cbn [first_attribute]; intros H.
  - destruct (attribute_at []) eqn:A; [|discriminate]. injection H as ->.
    destruct (attribute_at_split _ _ A) as (tag & post & E & R). exists [], tag, post. auto.
  - destruct (attribute_at (c :: s)) eqn:A.
    + injection H as ->.
      destruct (attribute_at_split _ _ A) as (tag & post & E & R). exists [], tag, post. auto.
    + destruct (IH H) as (mid & tag & post & -> & R). exists (c :: mid), tag, post. auto.
Qed.

Lemma keyword_at_split (s : str) :
  keyword_at s = true ->
  exists cds w, s = cds ++ [w] ++ skipn 4 s
    /\ matches_literal KEYWORD cds = true /\ is_space w = true.
Proof.
  unfold keyword_at. intros H. apply andb_true_iff in H as [S W].
  destruct (starts_with_split _ _ S) as [E M'].
  change (List.length KEYWORD) with 3%nat in E, M'.
  rewrite (skipn_S_tl 3 s). destruct (skipn 3 s) as [|w s3]; [discriminate|].
  exists (firstn 3 s), w. auto.
Qed.

Lemma after_keyword_split (s rest : str) :
  after_keyword s = Some rest ->
  exists pre cds w, s = pre ++ cds ++ [w] ++ rest
    /\ matches_literal KEYWORD cds = true /\ is_space w = true.
Proof.
  revert rest. induction s as [|c s IH]; intros rest H.
  - cbn in H. discriminate.
  - cbn [after_keyword] in H. destruct (keyword_at (c :: s)) eqn:K.
    + injection H as <-. destruct (keyword_at_split _ K) as (cds & w & E & R).
      exists [], cds, w. auto.
    + destruct (IH _ H) as (pre & cds & w & -> & R). exists (c :: pre), cds, w. auto.
Qed.

Lemma search_sound (content : str) (caps : list str) :
  search pattern content = Some caps ->
  exists pre cds w mid tag payload post,
    content = pre ++ cds ++ [w] ++ mid ++ tag ++ payload ++ [QUOTE] ++ post
    /\ matches_literal KEYWORD cds = true /\ is_space w = true
    /\ matches_literal TAG tag = true /\ no_quote payload = true
    /\ caps = [payload].
Proof.
  rewrite search_pattern. destruct (after_keyword content) as [rest|] eqn:A; [|discriminate].
  destruct (first_attribute rest) as [p|] eqn:F; [|discriminate].
  intros H. injection H as <-.
  destruct (after_keyword_split _ _ A) as (pre & cds & w & -> & Hc & Hw).
  destruct (first_attribute_split _ _ F) as (mid & tag & post & -> & Ht & Hq).
  exists pre, cds, w, mid, tag, p, post. auto 10.
Qed.

(** *** Completeness: an occurrence makes the search succeed *)

Lemma payload_of_app (p post : str) :
  no_quote p = true -> payload_of (p ++ QUOTE :: post) = Some p.
Proof.
  induction p as [|c p IH]; intros H.
  - reflexivity.
  - cbn in H. apply andb_true_iff in H as [Hc H]. unfold not_quote in Hc.
    cbn [app payload_of]. destruct (c =? QUOTE); [discriminate|].
    rewrite (IH H). reflexivity.
Qed.

Lemma attribute_at_app (tag p post : str) :
  matches_literal TAG tag = true -> no_quote p = true ->
  attribute_at (tag ++ p ++ QUOTE :: post) = Some p.
Proof.
  intros Ht Hp. unfold attribute_at. rewrite (matches_literal_starts _ _ _ Ht).
  rewrite skipn_app_length by (apply matches_literal_length; exact Ht).
  apply payload_of_app; exact Hp.
Qed.

Lemma first_attribute_hit (s p : str) :
  attribute_at s = Some p -> first_attribute s = Some p.
Proof. intros H. destruct s; cbn [first_attribute]; rewrite H; reflexivity. Qed.

Lemma first_attribute_some (mid tag p post : str) :
  matches_literal TAG tag = true -> no_quote p = true ->
  first_attribute (mid ++ tag ++ p ++ QUOTE :: post) <> None.
Proof.
  intros Ht Hp. induction mid as [|c mid IH].
  - cbn [app]. rewrite (first_attribute_hit _ _ (attribute_at_app _ _ post Ht Hp)).
    discriminate.
  - cbn [app first_attribute]. destruct (attribute_at _); [discriminate | exact IH].
Qed.

Lemma keyword_at_app (cds : str) (w : char) (rest : str) :
  matches_literal KEYWORD cds = true -> is_space w = true ->
  keyword_at (cds ++ w :: rest) = true /\ skipn 4 (cds ++ w :: rest) = rest.
Proof.
  intros Hc Hw. pose proof (matches_literal_length _ _ Hc) as L.
  change (List.length KEYWORD) with 3%nat in L.
  unfold keyword_at. rewrite (matches_literal_starts _ _ _ Hc).
  rewrite (skipn_S_tl 3), (skipn_app_length _ _ _ L). cbn. rewrite Hw. auto.
Qed.

Lemma skipn_le_suffix {A} (n m : nat) (pre t : list A) :
  (n <= List.length pre + m)%nat -> exists y, skipn n (pre ++ t) = y ++ skipn m t.
Proof.
  revert n. induction pre as [|x pre IH]; intros n H.
  - cbn in H |- *. exists (firstn (m - n) (skipn n t)).
    replace m with ((m - n) + n)%nat at 2 by lia.
    rewrite <- skipn_skipn. symmetry. apply firstn_skipn.
  - destruct n as [|n].
    + exists ((x :: pre) ++ firstn m t). cbn [skipn]. rewrite <- app_assoc.
      f_equal. symmetry. apply firstn_skipn.
    + cbn in H |- *. apply IH. lia.
Qed.

Lemma after_keyword_some (pre t : str) :
  keyword_at t = true ->
  exists y, after_keyword (pre ++ t) = Some (y ++ skipn 4 t).
Proof.
  intros K. induction pre as [|x pre IH].
  - exists []. destruct t; cbn [app after_keyword]; rewrite K; reflexivity.
  - cbn [app after_keyword]. destruct (keyword_at (x :: pre ++ t)); [|exact IH].
    destruct (@skipn_le_suffix _ 4 4 (x :: pre) t) as [y E]; [cbn; lia|].
    exists y. f_equal. exact E.
Qed.

Lemma search_complete (content : str) :
  has_cds_translation content -> search pattern content <> None.
Proof.
  intros (pre & cds & ws & mid & tag & p & post & -> & Hc & Hne & Hws & Ht & Hp).
  destruct ws as [|w ws]; [contradiction|]. cbn in Hws.
  apply andb_true_iff in Hws as [Hw _].
  rewrite search_pattern. cbn [app].
  set (x := ws ++ mid ++ tag ++ p ++ QUOTE :: post).
  destruct (keyword_at_app cds w x Hc Hw) as [K E].
  destruct (after_keyword_some pre _ K) as [y A].
  rewrite A, E. subst x.
  replace (y ++ ws ++ mid ++ tag ++ p ++ QUOTE :: post)
    with ((y ++ ws ++ mid) ++ tag ++ p ++ QUOTE :: post)
    by (rewrite <- !app_assoc; reflexivity).
  pose proof (first_attribute_some (y ++ ws ++ mid) tag p post Ht Hp) as F.
  destruct (first_attribute _); [discriminate | contradiction].
Qed.

(** *** The match found is the first one *)

Lemma has_keyword_length (s : str) : has_keyword s = true -> (4 <= List.length s)%nat.
Proof.
  induction s as [|c s IH]; cbn [has_keyword]; intros H.
  - cbn in H. discriminate.
  - apply orb_true_iff in H as [K|H].
    + apply keyword_at_length; exact K.
    + cbn. specialize (IH H). lia.
Qed.

Lemma keyword_at_mono (b x : str) : keyword_at b = true -> keyword_at (b ++ x) = true.
Proof.
  intros K. destruct (keyword_at_split _ K) as (cds & w & E & Hc & Hw).
  rewrite E. cbn [app]. rewrite <- app_assoc. cbn [app].
  apply keyword_at_app; assumption.
Qed.

Lemma after_keyword_within (before x : str) :
  has_keyword before = true ->
  exists a b, before = a ++ b /\ after_keyword (before ++ x) = Some (b ++ x).
Proof.
  induction before as [|c before IH]; intros H.
  - cbn in H. discriminate.
  - pose proof (has_keyword_length _ H) as L.
    cbn [app after_keyword]. change (c :: before ++ x) with ((c :: before) ++ x).
    destruct (keyword_at ((c :: before) ++ x)) eqn:K.
    + exists (firstn 4 (c :: before)), (skipn 4 (c :: before)). split.
      * symmetry. apply firstn_skipn.
      * rewrite skipn_app. replace (4 - List.length (c :: before))%nat with 0%nat by lia.
        reflexivity.
    + cbn [has_keyword] in H. apply orb_true_iff in H as [K'|H].
      * rewrite (keyword_at_mono _ x K') in K. discriminate.
      * destruct (IH H) as (a & b & -> & A). exists (c :: a), b. auto.
Qed.

Lemma no_tag_in_first_skip (a b y : str) :
  no_tag_in_first (List.length (a ++ b)) (a ++ b ++ y) = true ->
  no_tag_in_first (List.length b) (b ++ y) = true.
Proof.
  induction a as [|c a IH]; [auto|].
  cbn [app List.length no_tag_in_first]. intros H.
  apply andb_true_iff in H as [_ H]. auto.
Qed.

Lemma first_attribute_first (b tag p later : str) :
  matches_literal TAG tag = true -> no_quote p = true ->
  no_tag_in_first (List.length b) (b ++ tag ++ p ++ QUOTE :: later) = true ->
  first_attribute (b ++ tag ++ p ++ QUOTE :: later) = Some p.
Proof.
  intros Ht Hp. induction b as [|c b IH]; intros H.
  - cbn [app]. apply first_attribute_hit, attribute_at_app; assumption.
  - cbn [app List.length no_tag_in_first] in H.
    apply andb_true_iff in H as [S H]. apply negb_true_iff in S.
    cbn [app first_attribute]. unfold attribute_at at 1. rewrite S. auto.
Qed.

(** The keyword lies in [before], no tag begins in [before], and the tag
    that follows has a closed payload: that payload is what the search
    captures, whatever comes [later]. *)
Lemma search_first (before tag payload later : str) :
  has_keyword before = true ->
  matches_literal TAG tag = true ->
  no_quote payload = true ->
  no_tag_in_first (List.length before) (before ++ tag ++ payload ++ QUOTE :: later) = true ->
  search pattern (before ++ tag ++ payload ++ QUOTE :: later) = Some [payload].
Proof.
  intros Hk Ht Hp Hn. rewrite search_pattern.
  destruct (after_keyword_within _ (tag ++ payload ++ QUOTE :: later) Hk)
    as (a & b & -> & A).
  rewrite A. rewrite <- app_assoc in Hn. apply no_tag_in_first_skip in Hn.
  rewrite (first_attribute_first _ _ _ _ Ht Hp Hn). reflexivity.
Qed.

Lemma remove_whitespace_clean (s : str) :
  forallb (fun c => negb (is_space c)) (remove_whitespace s) = true.
Proof.
  induction s as [|c s IH]; [reflexivity|].
  cbn [remove_whitespace]. destruct (is_space c) eqn:E; [exact IH|].
  cbn. rewrite E. exact IH.
Qed.

Lemma remove_whitespace_filter (s : str) :
  remove_whitespace s = filter (fun c => negb (is_space c)) s.
Proof.
  induction s as [|c s IH]; [reflexivity|].
  cbn. destruct (is_space c); cbn; rewrite IH; reflexivity.
Qed.

(** ** The batch pipeline *)

Section BatchProofs.
Variable fetch : nat -> str -> callee (option str).
Variable extract : nat -> str -> callee (option str).

Lemma process_item_run (i : nat) (accession : str) (s : state) :
  process_item fetch extract i accession s
  = (State (results s ++ [row_for fetch extract i accession])
           (log s ++ item_events fetch extract i accession ++ [Sleep 1]),
     Ok tt).
Proof.
  unfold process_item, item_events, row_for, try_body, handler, try_except,
    bind, print, sleep, emit, append, call, initial.
  destruct s as [rs lg]. cbn [results log fst snd].
  destruct (fetch i accession) as [l1 [gc|e]]; cbn [fst snd results log].
  - destruct (truthy gc); cbn [fst snd results log].
    + destruct (extract i (text_of gc)) as [l2 [sq|e]]; cbn [fst snd results log].
      * destruct (truthy sq); cbn [fst snd results log app];
          rewrite <- ?app_assoc; reflexivity.
      * cbn [app]. rewrite <- ?app_assoc. reflexivity.
    + cbn [app]. rewrite <- ?app_assoc. reflexivity.
  - cbn [app]. rewrite <- ?app_assoc. reflexivity.
Qed.

Lemma item_events_no_sleep (i : nat) (accession : str) :
  filter is_sleep (item_events fetch extract i accession) = [].
Proof.
  assert (P : forall l : list str, filter is_sleep (map Print l) = []).
  { induction l; cbn; auto. }
  unfold item_events, row_for, try_body, handler, try_except,
    bind, print, sleep, emit, append, call, initial.
  cbn [results log fst snd].
  destruct (fetch i accession) as [l1 [gc|e]]; cbn [fst snd results log];
    [destruct (truthy gc); cbn [fst snd results log];
     [destruct (extract i (text_of gc)) as [l2 [sq|e]]; cbn [fst snd results log];
      [destruct (truthy sq); cbn [fst snd results log]|]|]|];
    cbn [app filter is_sleep];
    repeat (rewrite filter_app || rewrite P || cbn [app filter is_sleep]);
    reflexivity.
Qed.

Lemma for_each_run (accession_list : list str) (i : nat) (s : state) :
  for_each fetch extract i accession_list s
  = (State (results s ++ rows_from fetch extract i accession_list)
           (log s ++ events_from fetch extract i accession_list),
     Ok tt).
Proof.
  revert i s. induction accession_list as [|a rest IH]; intros i s.
  - destruct s. cbn. rewrite !app_nil_r. reflexivity.
  - cbn [for_each rows_from events_from]. unfold bind at 1.
    rewrite process_item_run, IH. cbn [results log].
    rewrite <- !app_assoc. reflexivity.
Qed.

Lemma scrape_with_run (accession_list : list str) (s : state) :
  scrape_with fetch extract accession_list s
  = (State (rows_from fetch extract 0 accession_list)
           (log s ++ events_from fetch extract 0 accession_list),
     Ok (rows_from fetch extract 0 accession_list)).
Proof.
  unfold scrape_with, bind, new_results, get_results.
  rewrite for_each_run. reflexivity.
Qed.

Lemma rows_from_length (accession_list : list str) (i : nat) :
  List.length (rows_from fetch extract i accession_list) = List.length accession_list.
Proof.
  revert i. induction accession_list as [|a rest IH]; intros i; cbn; auto.
Qed.

Lemma rows_from_nth (accession_list : list str) (i j : nat) :
  nth_error (rows_from fetch extract i accession_list) j
  = option_map (row_for fetch extract (i + j)) (nth_error accession_list j).
Proof.
  revert i j. induction accession_list as [|a rest IH]; intros i [|j];
    cbn [rows_from nth_error option_map];
    try reflexivity.
  - rewrite Nat.add_0_r. reflexivity.
  - rewrite IH. replace (S i + j)%nat with (i + S j)%nat by lia. reflexivity.
Qed.

Lemma row_for_ID (i : nat) (accession : str) :
  ID (row_for fetch extract i accession) = mark accession.
Proof.
  unfold row_for. destruct (snd (fetch i accession)) as [gc|e]; [|reflexivity].
  destruct (truthy gc); [|reflexivity].
  destruct (snd (extract i (text_of gc))) as [sq|e]; [|reflexivity].
  destruct (truthy sq); reflexivity.
Qed.

Lemma rows_from_ID (accession_list : list str) (i : nat) :
  map ID (rows_from fetch extract i accession_list) = map mark accession_list.
Proof.
  revert i. induction accession_list as [|a rest IH]; intros i; cbn [rows_from map].
  - reflexivity.
  - rewrite row_for_ID, IH. reflexivity.
Qed.

Lemma events_from_sleeps (accession_list : list str) (i : nat) :
  filter is_sleep (events_from fetch extract i accession_list)
  = repeat (Sleep 1) (List.length accession_list).
Proof.
  revert i. induction accession_list as [|a rest IH]; intros i; cbn [events_from].
  - reflexivity.
  - rewrite !filter_app, item_events_no_sleep, IH. reflexivity.
Qed.
End BatchProofs.

(** ** The parser *)

Lemma strip_cons_space (c : char) (t : str) :
  is_space c = true -> strip (c :: t) = strip t.
Proof. intros H. unfold strip. cbn [lstrip]. rewrite H. reflexivity. Qed.

Lemma strip_all_space (s : str) : all_space s = true -> strip s = [].
Proof.
  induction s as [|c s IH]; [reflexivity|]. intros H. cbn in H.
  apply andb_true_iff in H as [Hc H]. rewrite (strip_cons_space _ _ Hc). auto.
Qed.

Lemma rstrip_snoc_space (c : char) (t : str) :
  is_space c = true -> rstrip (t ++ [c]) = rstrip t.
Proof.
  intros H. unfold rstrip. rewrite rev_app_distr. cbn [rev app lstrip].
  rewrite H. reflexivity.
Qed.

Lemma strip_snoc_space (c : char) (t : str) :
  is_space c = true -> strip (t ++ [c]) = strip t.
Proof.
  intros H. induction t as [|a t IH].
  - cbn [app]. rewrite (strip_cons_space _ _ H). reflexivity.
  - cbn [app]. destruct (is_space a) eqn:Ea.
    + rewrite !(strip_cons_space _ _ Ea). exact IH.
    + unfold strip. cbn [lstrip]. rewrite Ea.
      change (a :: t ++ [c]) with ((a :: t) ++ [c]).
      apply rstrip_snoc_space; exact H.
Qed.

Lemma rstrip_split (s : str) :
  exists ws, s = rstrip s ++ ws /\ all_space ws = true.
Proof.
  assert (L : forall t, exists ws, t = ws ++ lstrip t /\ all_space ws = true).
  { induction t as [|c t [ws [E A]]].
    - exists []. auto.
    - cbn [lstrip]. destruct (is_space c) eqn:Ec.
      + exists (c :: ws). split; [cbn; f_equal; exact E|]. cbn. rewrite Ec. exact A.
      + exists []. auto. }
  destruct (L (rev s)) as (ws & E & A). exists (rev ws). split.
  - unfold rstrip. rewrite <- rev_app_distr, <- E. symmetry. apply rev_involutive.
  - unfold all_space in *. apply forallb_forall. intros x Hx.
    apply in_rev in Hx. revert x Hx. apply forallb_forall. exact A.
Qed.

Lemma split_comma_cons (c : char) (s : str) :
  (c =? COMMA) = false ->
  split_comma (c :: s)
  = (c :: hd [] (split_comma s)) :: tl (split_comma s).
Proof.
  intros H. cbn [split_comma]. rewrite H.
  destruct s as [|a s]; [reflexivity|].
  destruct (split_comma (a :: s)) eqn:E; [|reflexivity].
  exfalso. cbn [split_comma] in E.
  destruct (a =? COMMA); [discriminate|]. destruct (split_comma s); discriminate.
Qed.

Lemma split_comma_hd_tl (s : str) :
  split_comma s = hd [] (split_comma s) :: tl (split_comma s).
Proof.
  destruct s as [|a s]; [reflexivity|]. cbn [split_comma].
  destruct (a =? COMMA); [reflexivity|]. destruct (split_comma s); reflexivity.
Qed.

Lemma split_comma_snoc (c : char) (s : str) :
  (c =? COMMA) = false ->
  exists init last,
    split_comma s = init ++ [last] /\ split_comma (s ++ [c]) = init ++ [last ++ [c]].
Proof.
  intros H. induction s as [|a s (init & last & E1 & E2)].
  - exists [], []. split; [reflexivity|]. cbn. rewrite H. reflexivity.
  - cbn [app]. destruct (a =? COMMA) eqn:Ea.
    + exists ([] :: init), last. cbn [split_comma]. rewrite Ea, E1, E2. auto.
    + rewrite !(split_comma_cons _ _ Ea), E1, E2.
      destruct init as [|t init].
      * exists [], (a :: last). auto.
      * exists ((a :: t) :: init), last. auto.
Qed.

Lemma split_strip_cons_space (c : char) (s : str) :
  is_space c = true ->
  map strip (split_comma (c :: s)) = map strip (split_comma s).
Proof.
  intros H. rewrite (split_comma_cons _ _ (space_not_comma _ H)).
  rewrite (split_comma_hd_tl s) at 3. cbn [map].
  rewrite (strip_cons_space _ _ H). reflexivity.
Qed.

Lemma split_strip_snoc_space (c : char) (s : str) :
  is_space c = true ->
  map strip (split_comma (s ++ [c])) = map strip (split_comma s).
Proof.
  intros H.
  destruct (split_comma_snoc _ s (space_not_comma _ H)) as (init & last & -> & ->).
  rewrite !map_app. cbn [map]. rewrite (strip_snoc_space _ _ H). reflexivity.
Qed.

Lemma split_strip_lstrip (s : str) :
  map strip (split_comma (lstrip s)) = map strip (split_comma s).
Proof.
  induction s as [|c s IH]; [reflexivity|]. cbn [lstrip].
  destruct (is_space c) eqn:Ec; [|reflexivity].
  rewrite IH. symmetry. apply split_strip_cons_space; exact Ec.
Qed.

Lemma split_strip_app_space (ws r : str) :
  all_space ws = true ->
  map strip (split_comma (r ++ ws)) = map strip (split_comma r).
Proof.
  revert r. induction ws as [|c ws IH]; intros r H.
  - rewrite app_nil_r. reflexivity.
  - cbn in H. apply andb_true_iff in H as [Hc H].
    change (r ++ c :: ws) with (r ++ [c] ++ ws). rewrite app_assoc, (IH _ H).
    apply split_strip_snoc_space; exact Hc.
Qed.

Lemma split_strip_strip (s : str) :
  map strip (split_comma (strip s)) = map strip (split_comma s).
Proof.
  transitivity (map strip (split_comma (lstrip s))); [|apply split_strip_lstrip].
  change (strip s) with (rstrip (lstrip s)).
  destruct (rstrip_split (lstrip s)) as (ws & E & A).
  remember (rstrip (lstrip s)) as r. rewrite E.
  symmetry. apply split_strip_app_space; exact A.
Qed.

Lemma map_strip_filter (l : list str) :
  map strip (filter (fun acc => nonempty (strip acc)) l)
  = filter nonempty (map strip l).
Proof.
  induction l as [|a l IH]; [reflexivity|]. cbn [filter map].
  destruct (nonempty (strip a)); cbn [map]; rewrite IH; reflexivity.
Qed.

Lemma leer_refines_spec (contenido : str) :
  leer_accesiones_desde_contenido contenido = parse_spec contenido.
Proof.
  unfold leer_accesiones_desde_contenido, parse_spec.
  rewrite <- (split_strip_strip contenido).
  destruct (strip contenido) as [|c s] eqn:E.
  - reflexivity.
  - cbn [nonempty]. apply map_strip_filter.
Qed.

(** ** The leftmost keyword, then the first tag after it *)

Lemma after_keyword_leftmost (a b x : str) :
  no_keyword_in_first (List.length a) (a ++ b ++ x) = true ->
  keyword_at b = true ->
  after_keyword (a ++ b ++ x) = Some (skipn 4 b ++ x).
Proof.
  intros Ha Kb. induction a as [|c a IH].
  - cbn [app]. pose proof (keyword_at_length _ Kb) as L.
    pose proof (keyword_at_mono _ x Kb) as K.
    destruct (b ++ x) eqn:E; cbn [after_keyword]; rewrite K; rewrite <- E;
      rewrite skipn_app; replace (4 - List.length b)%nat with 0%nat by lia;
      reflexivity.
  - cbn [app List.length no_keyword_in_first] in Ha.
    apply andb_true_iff in Ha as [K Ha]. apply negb_true_iff in K.
    cbn [app after_keyword]. rewrite K. auto.
Qed.

Lemma search_leftmost (a b tag payload later : str) :
  no_keyword_in_first (List.length a) (a ++ b ++ tag ++ payload ++ QUOTE :: later) = true ->
  keyword_at b = true ->
  no_tag_in_first (List.length b) (b ++ tag ++ payload ++ QUOTE :: later) = true ->
  matches_literal TAG tag = true ->
  no_quote payload = true ->
  search pattern (a ++ b ++ tag ++ payload ++ QUOTE :: later) = Some [payload].
Proof.
  intros Ha Kb Hn Ht Hp. rewrite search_pattern.
  rewrite (after_keyword_leftmost _ _ _ Ha Kb).
  rewrite <- (firstn_skipn 4 b) in Hn at 1 2. rewrite <- app_assoc in Hn.
  apply no_tag_in_first_skip in Hn.
  rewrite (first_attribute_first _ _ _ _ Ht Hp Hn). reflexivity.
Qed.

Lemma no_occurrence_in_empty : ~ has_cds_translation [].
Proof.
  intros (pre & cds & ws & mid & tag & p & post & E & Hc & _).
  destruct pre; [|discriminate E]. destruct cds; [discriminate Hc | discriminate E].
Qed.

Lemma extract_none_iff (content : str) :
  extract_cds_translation_genbank content = None <-> ~ has_cds_translation content.
Proof.
  unfold extract_cds_translation_genbank. split.
  - intros H Hc. apply search_complete in Hc.
    destruct (search pattern content); [discriminate | contradiction].
  - intros H. destruct (search pattern content) as [caps|] eqn:S; [|reflexivity].
    exfalso. apply H.
    destruct (search_sound _ _ S)
      as (pre & cds & w & mid & tag & p & post & E & Hc & Hw & Ht & Hp & _).
    exists pre, cds, [w], mid, tag, p, post. repeat split; auto.
    + discriminate.
    + cbn. rewrite Hw. reflexivity.
Qed.

(** The row of an item of the wired pipeline, from what its request
    yields. *)
Lemma scrape_row (requests_get : nat -> str -> N -> outcome str)
    (accession_list : list str) (s : state) (j : nat) (accession : str) :
  nth_error accession_list j = Some accession ->
  nth_error (rows_of (scrape_ncbi_sequences requests_get accession_list s)) j
  = Some
      match requests_get j (url_of accession) 15 with
      | Raise _ => fetch_error_row accession
      | Ok content =>
          if nonempty content then
            match extract_cds_translation_genbank content with
            | Some (c :: sequence) => success_row accession (c :: sequence)
            | _ => not_found_row accession
            end
          else fetch_error_row accession
      end.
Proof.
  intros H. unfold scrape_ncbi_sequences, rows_of. rewrite scrape_with_run.
  cbn [fst results]. rewrite rows_from_nth, H. cbn [option_map plus].
  f_equal. unfold row_for, get_genbank_content.
  destruct (requests_get j (url_of accession) 15) as [content|e]; cbn [snd]; [|reflexivity].
  destruct content as [|c content]; [reflexivity|]. cbn [truthy nonempty text_of].
  destruct (extract_cds_translation_genbank (c :: content)) as [[|x sq]|]; reflexivity.
Qed.

(** In the wired pipeline no exception escapes either call: the fetcher
    catches what the request raises and the extraction is total.  The
    handler of the loop is reached only by callees that raise. *)
Lemma wired_calls_do_not_raise (requests_get : nat -> str -> N -> outcome str)
    (i : nat) (accession : str) (e : exn) :
  ~ raises_at (fun i => get_genbank_content (requests_get i))
              (fun _ content => ([], Ok (extract_cds_translation_genbank content)))
              i accession e.
Proof.
  unfold raises_at, get_genbank_content.
  intros [H | (gc & _ & _ & H)].
  - destruct (requests_get i (url_of accession) 15); discriminate H.
  - discriminate H.
Qed.

(** * The claims *)

(** C1. For every input list, and whatever the fetches and extractions
    of the items do (return, return nothing, raise), the run returns a
    batch with exactly one row per input accession, in input order: the
    identifiers of the rows are the marked accessions of the input, one
    for one, so the lengths agree.  It holds for the loop over arbitrary
    callees and so for the wired pipeline over any network. *)
Theorem C1_one_row_per_accession_in_order :
  (forall (fetch extract : nat -> str -> callee (option str))
          (accession_list : list str) (s : state),
      exists rows,
        snd (scrape_with fetch extract accession_list s) = Ok rows
        /\ List.length rows = List.length accession_list
        /\ map ID rows = map mark accession_list)
  /\ (forall (requests_get : nat -> str -> N -> outcome str)
             (accession_list : list str) (s : state),
         exists rows,
           snd (scrape_ncbi_sequences requests_get accession_list s) = Ok rows
           /\ List.length rows = List.length accession_list
           /\ map ID rows = map mark accession_list).
Proof.
  assert (G : forall fetch extract accession_list s,
             exists rows,
               snd (scrape_with fetch extract accession_list s) = Ok rows
               /\ List.length rows = List.length accession_list
               /\ map ID rows = map mark accession_list).
  { intros fetch extract accession_list s.
    exists (rows_from fetch extract 0 accession_list).
    rewrite scrape_with_run. repeat split.
    - apply rows_from_length.
    - apply rows_from_ID. }
  split; [exact G|]. intros requests_get accession_list s. apply G.
Qed.

(** C2. When an exception escapes the fetch or the extraction of the
    item at position [j], the run still returns one row per item, the
    row of item [j] has status error and carries the description of the
    exception, and every other row is the row of the run in which the
    callees behave the same except at [j] (the run without the fault). *)
Theorem C2_fault_is_confined_to_its_item
    (fetch extract fetch0 extract0 : nat -> str -> callee (option str))
    (accession_list : list str) (s : state) (j : nat) (accession : str) (e : exn) :
  nth_error accession_list j = Some accession ->
  raises_at fetch extract j accession e ->
  (forall i a, i <> j -> fetch0 i a = fetch i a) ->
  (forall i c, i <> j -> extract0 i c = extract i c) ->
  let run := scrape_with fetch extract accession_list s in
  let run0 := scrape_with fetch0 extract0 accession_list s in
  snd run = Ok (rows_of run)
  /\ List.length (rows_of run) = List.length accession_list
  /\ nth_error (rows_of run) j
     = Some (Row (mark accession) (lit "Error: " ++ e) ERROR)
  /\ forall i, i <> j -> nth_error (rows_of run) i = nth_error (rows_of run0) i.
Proof.
  intros Hj Hr Hf He run run0. subst run run0. unfold rows_of.
  rewrite !scrape_with_run. cbn [fst snd results].
  split; [reflexivity|]. split; [apply rows_from_length|]. split.
  - rewrite rows_from_nth, Hj. cbn [option_map plus]. f_equal.
    unfold row_for. destruct Hr as [Hr | (gc & Hg & Ht & Hx)].
    + rewrite Hr. reflexivity.
    + rewrite Hg, Ht, Hx. reflexivity.
  - intros i Hi. rewrite !rows_from_nth. cbn [plus].
    destruct (nth_error accession_list i) as [a|]; [|reflexivity].
    cbn [option_map]. f_equal. unfold row_for.
    rewrite (Hf i a Hi).
    destruct (snd (fetch i a)) as [gc|]; [|reflexivity].
    rewrite (He i (text_of gc) Hi). reflexivity.
Qed.

(** A batch of three where the fetch of the second item raises. *)
Lemma C2_witness :
  let content := lit "CDS 1..9 /translation=" ++ [QUOTE] ++ lit "MKV" ++ [QUOTE] in
  let extract := fun (_ : nat) c => ([], Ok (extract_cds_translation_genbank c)) in
  let fetch0 := fun (_ : nat) (_ : str) => ([] : list str, Ok (Some content)) in
  let fetch := fun (i : nat) a =>
                 if Nat.eqb i 1 then ([], Raise (lit "malformed")) else fetch0 i a in
  let accession_list := [lit "A1"; lit "B2"; lit "C3"] in
  let run := scrape_with fetch extract accession_list initial in
  let run0 := scrape_with fetch0 extract accession_list initial in
  snd run = Ok (rows_of run)
  /\ List.length (rows_of run) = 3%nat
  /\ nth_error (rows_of run) 1
     = Some (Row (mark (lit "B2")) (lit "Error: " ++ lit "malformed") ERROR)
  /\ forall i, i <> 1%nat -> nth_error (rows_of run) i = nth_error (rows_of run0) i.
Proof.
  intros content extract fetch0 fetch accession_list run run0.
  apply (C2_fault_is_confined_to_its_item fetch extract fetch0 extract
           accession_list initial 1 (lit "B2") (lit "malformed")).
  - reflexivity.
  - left. reflexivity.
  - intros i a Hi. unfold fetch. destruct (Nat.eqb_spec i 1); [contradiction | reflexivity].
  - reflexivity.
Defined.

(** C3. When the request of an accession fails (timeout, non-2xx status,
    transport failure), the fetcher prints one diagnostic line, returns
    [None] and raises nothing; the run returns, and the row of that
    accession has status error with the retrieval-failure placeholder
    as its sequence. *)
Theorem C3_failed_fetch_gives_error_row
    (requests_get : nat -> str -> N -> outcome str)
    (accession_list : list str) (s : state) (j : nat) (accession : str) (e : exn) :
  nth_error accession_list j = Some accession ->
  requests_get j (url_of accession) 15 = Raise e ->
  let run := scrape_ncbi_sequences requests_get accession_list s in
  get_genbank_content (requests_get j) accession
  = ([lit "Error obteniendo GenBank para " ++ accession ++ lit ": " ++ e], Ok None)
  /\ snd run = Ok (rows_of run)
  /\ nth_error (rows_of run) j
     = Some (Row (mark accession) (lit "Error obteniendo GenBank") ERROR).
Proof.
  intros Hj Hr run. subst run. split; [|split].
  - unfold get_genbank_content. rewrite Hr. reflexivity.
  - unfold scrape_ncbi_sequences, rows_of. rewrite scrape_with_run. reflexivity.
  - rewrite (scrape_row _ _ _ _ _ Hj), Hr. reflexivity.
Qed.

Lemma C3_witness :
  let requests_get := fun (_ : nat) (_ : str) (_ : N) => @Raise str (lit "timed out") in
  let run := scrape_ncbi_sequences requests_get [lit "AB123"] initial in
  get_genbank_content (requests_get 0%nat) (lit "AB123")
  = ([lit "Error obteniendo GenBank para " ++ lit "AB123" ++ lit ": " ++ lit "timed out"],
     Ok None)
  /\ snd run = Ok (rows_of run)
  /\ nth_error (rows_of run) 0
     = Some (Row (mark (lit "AB123")) (lit "Error obteniendo GenBank") ERROR).
Proof.
  intros requests_get run.
  apply (C3_failed_fetch_gives_error_row requests_get [lit "AB123"] initial 0
           (lit "AB123") (lit "timed out")); reflexivity.
Defined.

(** C4, as stated, fails on a fetch that succeeds with an empty body:
    the content holds no feature and extraction on it returns [None],
    but the truthiness test on the content sends the item to the
    retrieval-failure branch, so its row has status error, not
    not-found. *)
Lemma C4_counterexample :
  let requests_get := fun (_ : nat) (_ : str) (_ : N) => Ok ([] : str) in
  let run := scrape_ncbi_sequences requests_get [lit "AB123"] initial in
  requests_get 0%nat (url_of (lit "AB123")) 15 = Ok []
  /\ ~ has_cds_translation []
  /\ extract_cds_translation_genbank [] = None
  /\ nth_error (rows_of run) 0
     = Some (Row (mark (lit "AB123")) (lit "Error obteniendo GenBank") ERROR)
  /\ nth_error (rows_of run) 0 <> Some (not_found_row (lit "AB123")).
Proof.
  cbv zeta. split; [reflexivity|]. split; [exact no_occurrence_in_empty|].
  split; [reflexivity|]. split; [reflexivity|]. discriminate.
Qed.

(** C4, amended. For every fetched content that is not empty and in
    which no keyword followed by a quoted translation attribute occurs,
    extraction returns [None] and the row of the accession has status
    not-found with the not-found placeholder, a status other than
    error. *)
Theorem C4_no_feature_gives_not_found
    (requests_get : nat -> str -> N -> outcome str)
    (accession_list : list str) (s : state) (j : nat) (accession content : str) :
  nth_error accession_list j = Some accession ->
  requests_get j (url_of accession) 15 = Ok content ->
  content <> [] ->
  ~ has_cds_translation content ->
  extract_cds_translation_genbank content = None
  /\ nth_error (rows_of (scrape_ncbi_sequences requests_get accession_list s)) j
     = Some (Row (mark accession) (lit "No encontrada en GenBank") NO_ENCONTRADA)
  /\ NO_ENCONTRADA <> ERROR.
Proof.
  intros Hj Hr Hne Hno. apply extract_none_iff in Hno. split; [exact Hno|]. split.
  - rewrite (scrape_row _ _ _ _ _ Hj), Hr, Hno.
    destruct content; [contradiction | reflexivity].
  - discriminate.
Qed.

Lemma C4_witness :
  let content := lit "LOCUS       AB123     300 bp    DNA" in
  let requests_get := fun (_ : nat) (_ : str) (_ : N) => Ok content in
  extract_cds_translation_genbank content = None
  /\ nth_error (rows_of (scrape_ncbi_sequences requests_get [lit "AB123"] initial)) 0
     = Some (Row (mark (lit "AB123")) (lit "No encontrada en GenBank") NO_ENCONTRADA)
  /\ NO_ENCONTRADA <> ERROR.
Proof.
  intros content requests_get.
  apply (C4_no_feature_gives_not_found requests_get [lit "AB123"] initial 0
           (lit "AB123") content).
  - reflexivity.
  - reflexivity.
  - discriminate.
  - apply extract_none_iff. vm_compute. reflexivity.
Defined.

(** C5. On the content with the payload ABC DE, a line break, F between
    the quotes, extraction returns exactly ABCDEF; and whenever
    extraction returns a sequence, the content holds the keyword, a
    whitespace character, the tag and a quoted payload, and the sequence
    is that payload with every whitespace character (line breaks
    included) removed. *)
Theorem C5_payload_whitespace_removed :
  extract_cds_translation_genbank
    (lit "     CDS             1..300" ++ [NL]
       ++ lit "                     /translation=" ++ [QUOTE]
       ++ lit "ABC DE" ++ [NL] ++ lit "F" ++ [QUOTE] ++ [NL])
  = Some (lit "ABCDEF")
  /\ forall content sequence,
       extract_cds_translation_genbank content = Some sequence ->
       exists pre cds w mid tag payload post,
         content = pre ++ cds ++ [w] ++ mid ++ tag ++ payload ++ [QUOTE] ++ post
         /\ matches_literal KEYWORD cds = true /\ is_space w = true
         /\ matches_literal TAG tag = true /\ no_quote payload = true
         /\ sequence = filter (fun c => negb (is_space c)) payload
         /\ forallb (fun c => negb (is_space c)) sequence = true.
Proof.
  split; [vm_compute; reflexivity|].
  intros content sequence H. unfold extract_cds_translation_genbank in H.
  destruct (search pattern content) as [caps|] eqn:S; [|discriminate].
  injection H as <-.
  destruct (search_sound _ _ S)
    as (pre & cds & w & mid & tag & p & post & E & Hc & Hw & Ht & Hp & ->).
  exists pre, cds, w, mid, tag, p, post. cbn [nth].
  repeat split; auto.
  - apply remove_whitespace_filter.
  - apply remove_whitespace_clean.
Qed.

Lemma C5_witness :
  exists pre cds w mid tag payload post,
    lit "CDS 1..9 /translation=" ++ [QUOTE] ++ lit "M K" ++ [NL] ++ lit "V" ++ [QUOTE]
    = pre ++ cds ++ [w] ++ mid ++ tag ++ payload ++ [QUOTE] ++ post
    /\ matches_literal KEYWORD cds = true /\ is_space w = true
    /\ matches_literal TAG tag = true /\ no_quote payload = true
    /\ lit "MKV" = filter (fun c => negb (is_space c)) payload
    /\ forallb (fun c => negb (is_space c)) (lit "MKV") = true.
Proof.
  apply (proj2 C5_payload_whitespace_removed
           (lit "CDS 1..9 /translation=" ++ [QUOTE] ++ lit "M K" ++ [NL] ++ lit "V" ++ [QUOTE])
           (lit "MKV")).
  vm_compute. reflexivity.
Defined.

Lemma has_keyword_app (pre t x : str) :
  keyword_at t = true -> has_keyword (pre ++ t ++ x) = true.
Proof.
  intros K. pose proof (keyword_at_mono _ x K) as K'.
  induction pre as [|c pre IH].
  - cbn [app]. destruct (t ++ x); cbn [has_keyword]; rewrite K'; reflexivity.
  - cbn [app has_keyword]. rewrite IH. apply orb_true_r.
Qed.

(** C6. The keyword and the tag in any letter case, separated by any
    text (line breaks included): extraction matches; and when no other
    tag begins before this one, it yields this payload, stripped. *)
Theorem C6_case_insensitive_across_lines
    (pre cds ws mid tag payload later : str) :
  matches_literal KEYWORD cds = true ->
  ws <> [] ->
  all_space ws = true ->
  matches_literal TAG tag = true ->
  no_quote payload = true ->
  let content := pre ++ cds ++ ws ++ mid ++ tag ++ payload ++ QUOTE :: later in
  extract_cds_translation_genbank content <> None
  /\ (no_tag_in_first (List.length (pre ++ cds ++ ws ++ mid)) content = true ->
      extract_cds_translation_genbank content = Some (remove_whitespace payload)).
Proof.
  intros Hc Hne Hws Ht Hp content. split.
  - intros H. apply extract_none_iff in H. apply H.
    exists pre, cds, ws, mid, tag, payload, later. repeat split; auto.
  - intros Hn. unfold extract_cds_translation_genbank.
    assert (E : content = (pre ++ cds ++ ws ++ mid) ++ tag ++ payload ++ QUOTE :: later).
    { subst content. rewrite <- !app_assoc. reflexivity. }
    rewrite E in Hn |- *. rewrite (search_first _ _ _ _) ; auto.
    destruct ws as [|w ws]; [contradiction|]. cbn in Hws.
    apply andb_true_iff in Hws as [Hw _].
    replace (pre ++ cds ++ (w :: ws) ++ mid) with (pre ++ (cds ++ w :: []) ++ (ws ++ mid))
      by (rewrite <- !app_assoc; reflexivity).
    apply has_keyword_app. apply keyword_at_app; assumption.
Qed.

Lemma C6_witness :
  extract_cds_translation_genbank
    ((lit "FEATURES" ++ [NL] ++ lit "     ") ++ lit "cds" ++ lit "   "
       ++ (lit "1..9" ++ [NL] ++ lit "     /note=x" ++ [NL] ++ lit "     ")
       ++ (lit "/Translation=" ++ [QUOTE]) ++ lit "XYZ" ++ QUOTE :: [NL])
  = Some (lit "XYZ").
Proof.
  apply (proj2 (C6_case_insensitive_across_lines
                  (lit "FEATURES" ++ [NL] ++ lit "     ") (lit "cds") (lit "   ")
                  (lit "1..9" ++ [NL] ++ lit "     /note=x" ++ [NL] ++ lit "     ")
                  (lit "/Translation=" ++ [QUOTE]) (lit "XYZ") [NL]
                  eq_refl ltac:(discriminate) eq_refl eq_refl eq_refl)).
  vm_compute. reflexivity.
Defined.

(** C7. The first pair is the leftmost keyword (no keyword begins in
    [a], one begins [b]) and the first tag after it (none begins in
    [b]).  Extraction returns the stripped payload of that pair,
    whatever follows its closing quote: further features and their
    translations in [later] are not reported. *)
Theorem C7_only_first_pair
    (a b tag payload later : str) :
  no_keyword_in_first (List.length a) (a ++ b ++ tag ++ payload ++ QUOTE :: later) = true ->
  keyword_at b = true ->
  no_tag_in_first (List.length b) (b ++ tag ++ payload ++ QUOTE :: later) = true ->
  matches_literal TAG tag = true ->
  no_quote payload = true ->
  extract_cds_translation_genbank (a ++ b ++ tag ++ payload ++ QUOTE :: later)
  = Some (remove_whitespace payload).
Proof.
  intros Ha Kb Hn Ht Hp. unfold extract_cds_translation_genbank.
  rewrite (search_leftmost _ _ _ _ _ Ha Kb Hn Ht Hp). reflexivity.
Qed.

(** Two features with the translations MKV and GHT: only MKV. *)
Lemma C7_witness :
  extract_cds_translation_genbank
    ((lit "FEATURES" ++ [NL] ++ lit "     ")
       ++ (lit "CDS             1..9" ++ [NL] ++ lit "                     ")
       ++ (lit "/translation=" ++ [QUOTE]) ++ lit "MKV"
       ++ QUOTE :: ([NL] ++ lit "     CDS             20..28" ++ [NL]
                      ++ lit "                     /translation=" ++ [QUOTE]
                      ++ lit "GHT" ++ [QUOTE] ++ [NL]))
  = Some (lit "MKV").
Proof.
  apply (C7_only_first_pair
           (lit "FEATURES" ++ [NL] ++ lit "     ")
           (lit "CDS             1..9" ++ [NL] ++ lit "                     ")
           (lit "/translation=" ++ [QUOTE]) (lit "MKV")
           ([NL] ++ lit "     CDS             20..28" ++ [NL]
              ++ lit "                     /translation=" ++ [QUOTE]
              ++ lit "GHT" ++ [QUOTE] ++ [NL]));
    vm_compute; reflexivity.
Defined.

(** C8. The parser returns what splitting the text on commas, trimming
    each token and discarding the empty tokens returns; on the example
    text it returns the three accessions; on empty and on
    whitespace-only text it returns the empty list. *)
Theorem C8_parser_splits_trims_discards :
  (forall contenido, leer_accesiones_desde_contenido contenido = parse_spec contenido)
  /\ leer_accesiones_desde_contenido (lit " AB123, CD456 ,, EF789 ")
     = [lit "AB123"; lit "CD456"; lit "EF789"]
  /\ leer_accesiones_desde_contenido [] = []
  /\ (forall contenido,
         all_space contenido = true -> leer_accesiones_desde_contenido contenido = []).
Proof.
  split; [exact leer_refines_spec|]. split; [vm_compute; reflexivity|].
  split; [reflexivity|].
  intros contenido H. unfold leer_accesiones_desde_contenido.
  rewrite (strip_all_space _ H). reflexivity.
Qed.

Lemma C8_witness :
  leer_accesiones_desde_contenido (lit "   " ++ [NL; 9; 32]) = [].
Proof.
  apply (proj2 (proj2 (proj2 C8_parser_splits_trims_discards))).
  vm_compute. reflexivity.
Defined.

Lemma events_from_per_item
    (fetch extract : nat -> str -> callee (option str))
    (accession_list : list str) (i : nat) :
  exists per_item : list (list event),
    List.length per_item = List.length accession_list
    /\ Forall (fun evs => filter is_sleep evs = []) per_item
    /\ events_from fetch extract i accession_list
       = flat_map (fun evs => evs ++ [Sleep 1]) per_item.
Proof.
  revert i. induction accession_list as [|a rest IH]; intros i.
  - exists []. repeat split. constructor.
  - destruct (IH (S i)) as (per & L & F & E).
    exists (item_events fetch extract i a :: per). repeat split.
    + cbn. f_equal. exact L.
    + constructor; [apply item_events_no_sleep | exact F].
    + cbn [events_from flat_map]. rewrite E, <- app_assoc. reflexivity.
Qed.

(** C9. The log of a run is, item after item, what the item logs (no
    sleep among it, whatever its outcome) followed by one sleep of one
    second, the last item included; so a run over n accessions sleeps
    exactly n times. *)
Theorem C9_one_pacing_sleep_per_item
    (fetch extract : nat -> str -> callee (option str))
    (accession_list : list str) :
  let run := scrape_with fetch extract accession_list initial in
  (exists per_item : list (list event),
      List.length per_item = List.length accession_list
      /\ Forall (fun evs => filter is_sleep evs = []) per_item
      /\ log_of run = flat_map (fun evs => evs ++ [Sleep 1]) per_item)
  /\ filter is_sleep (log_of run) = repeat (Sleep 1) (List.length accession_list)
  /\ count_sleeps (log_of run) = List.length accession_list.
Proof.
  intros run. subst run. unfold log_of, count_sleeps.
  rewrite scrape_with_run. cbn [fst log initial app].
  split; [apply events_from_per_item|].
  rewrite events_from_sleeps. split; [reflexivity | apply repeat_length].
Qed.

(** C10. When the first translation attribute after a keyword has the
    empty payload, extraction returns the empty string, and the item's
    row has status not-found with the not-found placeholder: the test
    on the extracted string fails on the empty string, so no success row
    with an empty sequence is made. *)
Theorem C10_empty_translation_is_not_found
    (requests_get : nat -> str -> N -> outcome str)
    (accession_list : list str) (s : state) (j : nat)
    (accession before tag later : str) :
  nth_error accession_list j = Some accession ->
  requests_get j (url_of accession) 15 = Ok (before ++ tag ++ QUOTE :: later) ->
  has_keyword before = true ->
  matches_literal TAG tag = true ->
  no_tag_in_first (List.length before) (before ++ tag ++ QUOTE :: later) = true ->
  let rows := rows_of (scrape_ncbi_sequences requests_get accession_list s) in
  extract_cds_translation_genbank (before ++ tag ++ QUOTE :: later) = Some []
  /\ nth_error rows j
     = Some (Row (mark accession) (lit "No encontrada en GenBank") NO_ENCONTRADA)
  /\ nth_error rows j <> Some (success_row accession []).
Proof.
  intros Hj Hr Hk Ht Hn rows. subst rows.
  assert (X : extract_cds_translation_genbank (before ++ tag ++ QUOTE :: later) = Some []).
  { unfold extract_cds_translation_genbank.
    change (before ++ tag ++ QUOTE :: later)
      with (before ++ tag ++ [] ++ QUOTE :: later).
    rewrite (search_first before tag [] later Hk Ht eq_refl Hn). reflexivity. }
  split; [exact X|].
  rewrite (scrape_row _ _ _ _ _ Hj), Hr, X.
  destruct (before ++ tag ++ QUOTE :: later) eqn:E.
  - destruct before; [destruct tag|]; discriminate.
  - cbn [nonempty]. split; [reflexivity | discriminate].
Qed.

Lemma C10_witness :
  let content := lit "     CDS             1..9" ++ [NL]
                   ++ lit "                     /translation=" ++ [QUOTE; QUOTE; NL] in
  let requests_get := fun (_ : nat) (_ : str) (_ : N) => Ok content in
  let rows := rows_of (scrape_ncbi_sequences requests_get [lit "AB123"] initial) in
  extract_cds_translation_genbank content = Some []
  /\ nth_error rows 0
     = Some (Row (mark (lit "AB123")) (lit "No encontrada en GenBank") NO_ENCONTRADA)
  /\ nth_error rows 0 <> Some (success_row (lit "AB123") []).
Proof.
  intros content requests_get.
  apply (C10_empty_translation_is_not_found requests_get [lit "AB123"] initial 0
           (lit "AB123")
           (lit "     CDS             1..9" ++ [NL] ++ lit "                     ")
           (lit "/translation=" ++ [QUOTE]) [NL]);
    vm_compute; reflexivity.
Defined.

(** * Further properties of the code *)

(** ** The parser: trimming *)

Lemma lstrip_split (t : str) :
  exists ws, t = ws ++ lstrip t /\ all_space ws = true.
Proof.
  induction t as [|c t (ws & E & A)].
  - exists []. auto.
  - cbn [lstrip]. destruct (is_space c) eqn:Ec.
    + exists (c :: ws). split; [cbn; f_equal; exact E|]. cbn. rewrite Ec. exact A.
    + exists []. auto.
Qed.

Lemma strip_split (t : str) :
  exists ws1 ws2,
    t = ws1 ++ strip t ++ ws2 /\ all_space ws1 = true /\ all_space ws2 = true.
Proof.
  destruct (lstrip_split t) as (ws1 & E1 & A1).
  destruct (rstrip_split (lstrip t)) as (ws2 & E2 & A2).
  exists ws1, ws2. unfold strip. rewrite <- E2. auto.
Qed.

Lemma lstrip_head (t : str) :
  match lstrip t with
  | [] => True
  | c :: _ => is_space c = false
  end.
Proof.
  induction t as [|c t IH]; [exact I|]. cbn [lstrip].
  destruct (is_space c) eqn:E; [exact IH | exact E].
Qed.

Lemma lstrip_nonspace (c : char) (t : str) :
  is_space c = false -> lstrip (c :: t) = c :: t.
Proof. intros H. cbn [lstrip]. rewrite H. reflexivity. Qed.

Lemma lstrip_idem (t : str) : lstrip (lstrip t) = lstrip t.
Proof.
  pose proof (lstrip_head t) as H. destruct (lstrip t) as [|c u]; [reflexivity|].
  apply lstrip_nonspace; exact H.
Qed.

Lemma lstrip_app_nonspace (x : str) (c : char) (y : str) :
  is_space c = false -> lstrip (x ++ c :: y) = lstrip x ++ c :: y.
Proof.
  intros H. induction x as [|a x IH].
  - cbn [app lstrip]. rewrite H. reflexivity.
  - cbn [app lstrip]. destruct (is_space a); [exact IH | reflexivity].
Qed.

Lemma rstrip_cons_nonspace (c : char) (t : str) :
  is_space c = false -> rstrip (c :: t) = c :: rstrip t.
Proof.
  intros H. unfold rstrip. cbn [rev].
  rewrite (lstrip_app_nonspace _ _ _ H), rev_app_distr. reflexivity.
Qed.

Lemma rstrip_idem (t : str) : rstrip (rstrip t) = rstrip t.
Proof. unfold rstrip. rewrite rev_involutive, lstrip_idem. reflexivity. Qed.

Lemma strip_idem (t : str) : strip (strip t) = strip t.
Proof.
  unfold strip. pose proof (lstrip_head t) as H.
  destruct (lstrip t) as [|c u]; [reflexivity|].
  rewrite (rstrip_cons_nonspace _ _ H), (lstrip_nonspace _ _ H).
  rewrite <- (rstrip_cons_nonspace _ _ H). apply rstrip_idem.
Qed.

Lemma all_space_app (a b : str) :
  all_space (a ++ b) = all_space a && all_space b.
Proof. apply forallb_app. Qed.

Lemma nonempty_strip (t : str) : nonempty (strip t) = negb (all_space t).
Proof.
  destruct (all_space t) eqn:A.
  - rewrite (strip_all_space _ A). reflexivity.
  - destruct (strip t) eqn:E; [|reflexivity]. exfalso.
    destruct (strip_split t) as (ws1 & ws2 & E' & A1 & A2).
    rewrite E in E'. cbn [app] in E'. rewrite E', all_space_app, A1, A2 in A.
    discriminate.
Qed.

Lemma remove_whitespace_app (a b : str) :
  remove_whitespace (a ++ b) = remove_whitespace a ++ remove_whitespace b.
Proof. rewrite !remove_whitespace_filter. apply filter_app. Qed.

Lemma remove_whitespace_all_space (t : str) :
  all_space t = true -> remove_whitespace t = [].
Proof.
  induction t as [|c t IH]; [reflexivity|]. intros H. cbn in H.
  apply andb_true_iff in H as [Hc H]. cbn [remove_whitespace]. rewrite Hc. auto.
Qed.

Lemma remove_whitespace_strip (t : str) :
  remove_whitespace (strip t) = remove_whitespace t.
Proof.
  destruct (strip_split t) as (ws1 & ws2 & E & A1 & A2).
  rewrite E at 2. rewrite !remove_whitespace_app.
  rewrite (remove_whitespace_all_space _ A1), (remove_whitespace_all_space _ A2).
  rewrite app_nil_r. reflexivity.
Qed.

(** ** The parser: splitting *)

Lemma split_comma_app (a b : str) :
  split_comma (a ++ COMMA :: b) = split_comma a ++ split_comma b.
Proof.
  induction a as [|c a IH].
  - reflexivity.
  - cbn [app]. destruct (c =? COMMA) eqn:E.
    + cbn [split_comma]. rewrite E, IH. reflexivity.
    + rewrite !(split_comma_cons _ _ E), IH.
      rewrite (split_comma_hd_tl a) at 1 2. reflexivity.
Qed.

Lemma split_comma_no_comma (s : str) :
  forallb (fun c => negb (c =? COMMA)) s = true -> split_comma s = [s].
Proof.
  induction s as [|c s IH]; [reflexivity|]. intros H. cbn in H.
  apply andb_true_iff in H as [Hc H]. apply negb_true_iff in Hc.
  rewrite (split_comma_cons _ _ Hc), (IH H). reflexivity.
Qed.

Lemma split_comma_pieces (s u : str) :
  In u (split_comma s) -> ~ In COMMA u.
Proof.
  revert u. induction s as [|c s IH]; intros u H.
  - destruct H as [<-|[]]. intros [].
  - destruct (N.eqb_spec c COMMA) as [->|Hc].
    + cbn [split_comma] in H. rewrite N.eqb_refl in H.
      destruct H as [<-|H]; [intros [] | auto].
    + apply N.eqb_neq in Hc. rewrite (split_comma_cons _ _ Hc) in H.
      rewrite (split_comma_hd_tl s) in IH.
      destruct H as [<-|H].
      * intros [E|Hin].
        -- apply N.eqb_neq in Hc. congruence.
        -- apply (IH (hd [] (split_comma s))); [left; reflexivity | exact Hin].
      * apply IH. right. exact H.
Qed.

Lemma split_comma_comma (s : str) : split_comma (COMMA :: s) = [] :: split_comma s.
Proof. reflexivity. Qed.

Lemma split_comma_forallb (P : char -> bool) (s : str) :
  forallb (forallb P) (split_comma s) = forallb (fun c => P c || (c =? COMMA)) s.
Proof.
  induction s as [|c s IH]; [reflexivity|].
  destruct (N.eqb_spec c COMMA) as [->|Hc].
  - rewrite split_comma_comma. cbn [forallb]. rewrite IH, N.eqb_refl, orb_true_r.
    reflexivity.
  - apply N.eqb_neq in Hc. rewrite (split_comma_cons _ _ Hc). cbn [forallb].
    rewrite Hc, orb_false_r, <- IH.
    rewrite (split_comma_hd_tl s) at 3. cbn [forallb]. rewrite andb_assoc. reflexivity.
Qed.

Lemma split_comma_concat (s : str) :
  List.concat (split_comma s) = filter (fun c => negb (c =? COMMA)) s.
Proof.
  induction s as [|c s IH]; [reflexivity|].
  destruct (N.eqb_spec c COMMA) as [->|Hc].
  - rewrite split_comma_comma. cbn [filter concat app]. rewrite N.eqb_refl.
    cbn [negb]. exact IH.
  - apply N.eqb_neq in Hc. rewrite (split_comma_cons _ _ Hc). cbn [filter concat].
    rewrite Hc. cbn [negb app].
    f_equal. rewrite <- IH. rewrite (split_comma_hd_tl s) at 3. reflexivity.
Qed.

(** ** The parser: what it returns *)

(** X1. Parsing distributes over a comma: the accessions of a text with
    a comma in it are those of the part before the comma followed by
    those of the part after it (order and duplicates are kept). *)
Theorem leer_concatenates_at_commas (a b : str) :
  leer_accesiones_desde_contenido (a ++ COMMA :: b)
  = leer_accesiones_desde_contenido a ++ leer_accesiones_desde_contenido b.
Proof.
  rewrite !leer_refines_spec. unfold parse_spec.
  rewrite split_comma_app, map_app, filter_app. reflexivity.
Qed.

(** X2. A text without a comma is one token at most: the whole text,
    trimmed, or nothing when it is all whitespace.  Line breaks inside
    the text do not separate accessions. *)
Theorem leer_without_comma_is_one_token (contenido : str) :
  forallb (fun c => negb (c =? COMMA)) contenido = true ->
  leer_accesiones_desde_contenido contenido
  = if all_space contenido then [] else [strip contenido].
Proof.
  intros H. rewrite leer_refines_spec. unfold parse_spec.
  rewrite (split_comma_no_comma _ H). cbn [map filter].
  rewrite nonempty_strip. destruct (all_space contenido); reflexivity.
Qed.

Lemma leer_without_comma_witness :
  leer_accesiones_desde_contenido (lit "AB123" ++ [NL] ++ lit "CD456" ++ [NL])
  = [lit "AB123" ++ [NL] ++ lit "CD456"].
Proof.
  apply (leer_without_comma_is_one_token (lit "AB123" ++ [NL] ++ lit "CD456" ++ [NL])).
  vm_compute. reflexivity.
Defined.

(** X3. Every accession the parser returns is non-empty, is its own
    trimmed form (no whitespace at either end) and contains no comma. *)
Theorem leer_tokens_are_clean (contenido : str) :
  Forall (fun acc => acc <> [] /\ strip acc = acc /\ ~ In COMMA acc)
         (leer_accesiones_desde_contenido contenido).
Proof.
  rewrite leer_refines_spec. unfold parse_spec. apply Forall_forall.
  intros t H. apply filter_In in H as [H Hne]. apply in_map_iff in H as (u & <- & Hu).
  repeat split.
  - destruct (strip u); [discriminate Hne | discriminate].
  - apply strip_idem.
  - intros Hc. apply (split_comma_pieces _ _ Hu).
    destruct (strip_split u) as (ws1 & ws2 & E & _). rewrite E.
    apply in_or_app. right. apply in_or_app. left. exact Hc.
Qed.

Lemma filter_nil_forallb {A} (f : A -> bool) (l : list A) :
  filter f l = [] <-> forallb (fun x => negb (f x)) l = true.
Proof.
  induction l as [|x l IH]; cbn; [tauto|].
  destruct (f x); cbn; [|exact IH]. split; discriminate.
Qed.

Lemma forallb_of_map {A B} (f : B -> bool) (g : A -> B) (l : list A) :
  forallb f (map g l) = forallb (fun x => f (g x)) l.
Proof. induction l as [|x l IH]; cbn; [|rewrite IH]; reflexivity. Qed.

Lemma forallb_same {A} (f g : A -> bool) (l : list A) :
  (forall x, f x = g x) -> forallb f l = forallb g l.
Proof. intros H. induction l as [|x l IH]; cbn; [|rewrite H, IH]; reflexivity. Qed.

Lemma leer_nil_iff (contenido : str) :
  leer_accesiones_desde_contenido contenido = []
  <-> forallb space_or_comma contenido = true.
Proof.
  rewrite leer_refines_spec. unfold parse_spec.
  rewrite filter_nil_forallb, forallb_of_map.
  rewrite (forallb_same (fun t => negb (nonempty (strip t))) (forallb is_space)).
  - rewrite split_comma_forallb. reflexivity.
  - intros t. rewrite nonempty_strip. apply negb_involutive.
Qed.

(** X4. The parser returns no accession exactly when the text consists
    of whitespace and commas only. *)
Theorem leer_empty_iff (contenido : str) :
  leer_accesiones_desde_contenido contenido = []
  <-> forallb space_or_comma contenido = true.
Proof. exact (leer_nil_iff contenido). Qed.

Lemma concat_stripped (l : list str) :
  remove_whitespace (List.concat (filter nonempty (map strip l)))
  = remove_whitespace (List.concat l).
Proof.
  induction l as [|u l IH]; [reflexivity|]. cbn [map filter List.concat].
  rewrite remove_whitespace_app, <- IH, <- (remove_whitespace_strip u).
  destruct (strip u) as [|c t]; cbn [nonempty]; [reflexivity|].
  cbn [List.concat]. rewrite remove_whitespace_app. reflexivity.
Qed.

(** X5. The parser loses nothing but commas and whitespace: the
    accessions it returns, put end to end and stripped of whitespace,
    are the characters of the text that are neither, in order. *)
Theorem leer_keeps_the_other_characters (contenido : str) :
  remove_whitespace (List.concat (leer_accesiones_desde_contenido contenido))
  = filter (fun c => negb (space_or_comma c)) contenido.
Proof.
  rewrite leer_refines_spec. unfold parse_spec.
  rewrite concat_stripped, split_comma_concat, remove_whitespace_filter.
  induction contenido as [|c s IH]; [reflexivity|]. cbn [filter].
  unfold space_or_comma at 1. destruct (c =? COMMA) eqn:E; cbn [negb].
  - rewrite orb_true_r. cbn [negb]. exact IH.
  - rewrite orb_false_r. cbn [filter]. destruct (is_space c); cbn [negb]; rewrite IH;
      reflexivity.
Qed.

(** ** The extractor *)

Lemma after_keyword_none (s : str) : has_keyword s = false -> after_keyword s = None.
Proof.
  induction s as [|c s IH]; cbn [has_keyword after_keyword]; intros H;
    apply orb_false_iff in H as [K H]; rewrite K; auto.
Qed.

Lemma after_keyword_here (b : str) :
  keyword_at b = true -> after_keyword b = Some (skipn 4 b).
Proof. intros K. destruct b; cbn [after_keyword]; rewrite K; reflexivity. Qed.

(** X6. What stands before the leftmost keyword is ignored, translation
    attributes included: when no keyword (with its whitespace) begins
    in [a] and one begins [b], extraction on [a ++ b] is extraction on
    [b]. *)
Theorem extract_ignores_text_before_keyword (a b : str) :
  no_keyword_in_first (List.length a) (a ++ b) = true ->
  keyword_at b = true ->
  extract_cds_translation_genbank (a ++ b) = extract_cds_translation_genbank b.
Proof.
  intros Ha Kb. unfold extract_cds_translation_genbank. rewrite !search_pattern.
  rewrite <- (app_nil_r b) in Ha. rewrite (after_keyword_here _ Kb).
  rewrite <- (app_nil_r b) at 1. rewrite (after_keyword_leftmost _ _ _ Ha Kb).
  rewrite app_nil_r. reflexivity.
Qed.

(** An attribute in front of the only keyword is not extracted. *)
Lemma extract_ignores_witness :
  extract_cds_translation_genbank
    ((lit "/translation=" ++ [QUOTE] ++ lit "AAA" ++ [QUOTE; NL]) ++ lit "CDS  1..9")
  = extract_cds_translation_genbank (lit "CDS  1..9").
Proof.
  apply (extract_ignores_text_before_keyword
           (lit "/translation=" ++ [QUOTE] ++ lit "AAA" ++ [QUOTE; NL]) (lit "CDS  1..9"));
    vm_compute; reflexivity.
Defined.

(** X7. Without a keyword followed by a whitespace character there is
    no match, whatever attributes the content holds. *)
Theorem extract_needs_keyword_and_space (content : str) :
  has_keyword content = false ->
  extract_cds_translation_genbank content = None.
Proof.
  intros H. unfold extract_cds_translation_genbank.
  rewrite search_pattern, (after_keyword_none _ H). reflexivity.
Qed.

Lemma extract_needs_keyword_witness :
  extract_cds_translation_genbank
    (lit "CDS/translation=" ++ [QUOTE] ++ lit "MKV" ++ [QUOTE])
  = None.
Proof.
  apply (extract_needs_keyword_and_space
           (lit "CDS/translation=" ++ [QUOTE] ++ lit "MKV" ++ [QUOTE])).
  vm_compute. reflexivity.
Defined.

Lemma matches_literal_ends_with_quote (pat t : str) :
  matches_literal (pat ++ [QUOTE]) t = true -> exists t', t = t' ++ [QUOTE].
Proof.
  revert t. induction pat as [|pc pat IH]; intros [|c t] H; try discriminate.
  - cbn [app matches_literal] in H. apply andb_true_iff in H as [Hc Ht].
    rewrite literal_ic_quote in Hc. apply N.eqb_eq in Hc as ->.
    destruct t; [|discriminate]. exists []. reflexivity.
  - cbn [app matches_literal] in H. apply andb_true_iff in H as [_ H].
    destruct (IH _ H) as [t' ->]. exists (c :: t'). reflexivity.
Qed.

(** X8. A content with fewer than two double quotes has no match: an
    attribute whose quote is never closed is not extracted. *)
Theorem extract_needs_closed_quote (content : str) :
  (List.length (filter (N.eqb QUOTE) content) < 2)%nat ->
  extract_cds_translation_genbank content = None.
Proof.
  intros H. unfold extract_cds_translation_genbank.
  destruct (search pattern content) as [caps|] eqn:S; [|reflexivity]. exfalso.
  destruct (search_sound _ _ S)
    as (pre & cds & w & mid & tag & p & post & -> & _ & _ & Ht & _).
  destruct (matches_literal_ends_with_quote (lit "/translation=") tag Ht) as [t' ->].
  rewrite !filter_app, !length_app in H. cbn in H. lia.
Qed.

Lemma extract_needs_closed_quote_witness :
  extract_cds_translation_genbank
    (lit "     CDS             1..9" ++ [NL] ++ lit "     /translation=" ++ [QUOTE]
       ++ lit "MKVLA")
  = None.
Proof.
  apply (extract_needs_closed_quote
           (lit "     CDS             1..9" ++ [NL] ++ lit "     /translation=" ++ [QUOTE]
              ++ lit "MKVLA")).
  vm_compute. lia.
Defined.

Lemma no_quote_remove_whitespace (p : str) :
  no_quote p = true -> no_quote (remove_whitespace p) = true.
Proof.
  induction p as [|c p IH]; [reflexivity|]. intros H. cbn in H.
  apply andb_true_iff in H as [Hc H]. cbn [remove_whitespace].
  destruct (is_space c); [auto|]. cbn. rewrite Hc. auto.
Qed.

Lemma extract_some_payload (content sequence : str) :
  extract_cds_translation_genbank content = Some sequence ->
  exists front payload back,
    content = front ++ payload ++ back
    /\ no_quote payload = true
    /\ sequence = remove_whitespace payload.
Proof.
  unfold extract_cds_translation_genbank. intros H.
  destruct (search pattern content) as [caps|] eqn:S; [|discriminate].
  injection H as <-.
  destruct (search_sound _ _ S)
    as (pre & cds & w & mid & tag & p & post & -> & _ & _ & _ & Hp & ->).
  exists (pre ++ cds ++ [w] ++ mid ++ tag), p, ([QUOTE] ++ post).
  rewrite <- !app_assoc. auto.
Qed.

(** X9. An extracted sequence holds no double quote, and every character
    of it is a character of the content; it is never longer than the
    content. *)
Theorem extract_result_comes_from_content (content sequence : str) :
  extract_cds_translation_genbank content = Some sequence ->
  no_quote sequence = true
  /\ (forall c, In c sequence -> In c content)
  /\ (List.length sequence <= List.length content)%nat.
Proof.
  intros H. destruct (extract_some_payload _ _ H) as (front & p & back & -> & Hp & ->).
  split; [apply no_quote_remove_whitespace; exact Hp|]. split.
  - intros c Hc. rewrite remove_whitespace_filter in Hc. apply filter_In in Hc as [Hc _].
    apply in_or_app. right. apply in_or_app. left. exact Hc.
  - rewrite remove_whitespace_filter, !length_app.
    pose proof (filter_length_le (fun c => negb (is_space c)) p). lia.
Qed.

Lemma extract_result_witness :
  no_quote (lit "MKV") = true
  /\ (forall c, In c (lit "MKV") ->
                In c (lit "CDS 1..9 /translation=" ++ [QUOTE] ++ lit "M K" ++ [NL]
                        ++ lit "V" ++ [QUOTE]))
  /\ (List.length (lit "MKV")
      <= List.length (lit "CDS 1..9 /translation=" ++ [QUOTE] ++ lit "M K" ++ [NL]
                        ++ lit "V" ++ [QUOTE]))%nat.
Proof.
  apply (extract_result_comes_from_content
           (lit "CDS 1..9 /translation=" ++ [QUOTE] ++ lit "M K" ++ [NL] ++ lit "V" ++ [QUOTE])
           (lit "MKV")).
  vm_compute. reflexivity.
Defined.

(** ** The wired pipeline *)

Lemma space_not_quote (c : char) : is_space c = true -> not_quote c = true.
Proof.
  intros H. unfold not_quote. destruct (N.eqb_spec c QUOTE) as [->|]; [discriminate H|].
  reflexivity.
Qed.

Lemma all_space_no_quote (p : str) : all_space p = true -> no_quote p = true.
Proof.
  induction p as [|c p IH]; [reflexivity|]. intros H. cbn in H |- *.
  apply andb_true_iff in H as [Hc H]. rewrite (space_not_quote _ Hc). auto.
Qed.

(** X10. The success path: when the request yields a content whose
    first pair (leftmost keyword, first tag after it) has a payload
    with at least one character that is not whitespace, the row of the
    accession is the marked accession, the payload stripped of
    whitespace, and the success status. *)
Theorem scrape_success_row
    (requests_get : nat -> str -> N -> outcome str)
    (accession_list : list str) (s : state) (j : nat)
    (accession a b tag payload later : str) :
  nth_error accession_list j = Some accession ->
  requests_get j (url_of accession) 15 = Ok (a ++ b ++ tag ++ payload ++ QUOTE :: later) ->
  no_keyword_in_first (List.length a) (a ++ b ++ tag ++ payload ++ QUOTE :: later) = true ->
  keyword_at b = true ->
  no_tag_in_first (List.length b) (b ++ tag ++ payload ++ QUOTE :: later) = true ->
  matches_literal TAG tag = true ->
  no_quote payload = true ->
  remove_whitespace payload <> [] ->
  nth_error (rows_of (scrape_ncbi_sequences requests_get accession_list s)) j
  = Some (Row (mark accession) (remove_whitespace payload) EXITO).
Proof.
  intros Hj Hr Ha Kb Hn Ht Hp Hne.
  rewrite (scrape_row _ _ _ _ _ Hj), Hr.
  unfold extract_cds_translation_genbank.
  rewrite (search_leftmost _ _ _ _ _ Ha Kb Hn Ht Hp). cbn [nth].
  pose proof (keyword_at_length _ Kb) as L.
  destruct (a ++ b ++ tag ++ payload ++ QUOTE :: later) eqn:E.
  - apply (f_equal (@List.length char)) in E. rewrite !length_app in E. cbn in E. lia.
  - cbn [nonempty]. destruct (remove_whitespace payload); [contradiction | reflexivity].
Qed.

Lemma scrape_success_witness :
  let content :=
    (lit "LOCUS X" ++ [NL] ++ lit "     ")
      ++ (lit "CDS             1..9" ++ [NL] ++ lit "                     ")
      ++ (lit "/translation=" ++ [QUOTE]) ++ (lit "MK" ++ [NL] ++ lit "  VLA")
      ++ QUOTE :: [NL] in
  nth_error (rows_of (scrape_ncbi_sequences (fun _ _ _ => Ok content) [lit "AB123"] initial)) 0
  = Some (Row (lit ">AB123") (lit "MKVLA") EXITO).
Proof.
  intros content.
  apply (scrape_success_row (fun _ _ _ => Ok content) [lit "AB123"] initial 0 (lit "AB123")
           (lit "LOCUS X" ++ [NL] ++ lit "     ")
           (lit "CDS             1..9" ++ [NL] ++ lit "                     ")
           (lit "/translation=" ++ [QUOTE]) (lit "MK" ++ [NL] ++ lit "  VLA") [NL]);
    try (vm_compute; reflexivity).
  intros H. vm_compute in H. discriminate H.
Defined.

(** X11. A first pair whose payload is made of whitespace only (blank
    lines between the quotes) gives the not-found row, like an absent
    feature: the stripped payload is the empty string. *)
Theorem scrape_blank_translation_is_not_found
    (requests_get : nat -> str -> N -> outcome str)
    (accession_list : list str) (s : state) (j : nat)
    (accession a b tag payload later : str) :
  nth_error accession_list j = Some accession ->
  requests_get j (url_of accession) 15 = Ok (a ++ b ++ tag ++ payload ++ QUOTE :: later) ->
  no_keyword_in_first (List.length a) (a ++ b ++ tag ++ payload ++ QUOTE :: later) = true ->
  keyword_at b = true ->
  no_tag_in_first (List.length b) (b ++ tag ++ payload ++ QUOTE :: later) = true ->
  matches_literal TAG tag = true ->
  all_space payload = true ->
  extract_cds_translation_genbank (a ++ b ++ tag ++ payload ++ QUOTE :: later) = Some []
  /\ nth_error (rows_of (scrape_ncbi_sequences requests_get accession_list s)) j
     = Some (Row (mark accession) (lit "No encontrada en GenBank") NO_ENCONTRADA).
Proof.
  intros Hj Hr Ha Kb Hn Ht Hp.
  assert (X : extract_cds_translation_genbank (a ++ b ++ tag ++ payload ++ QUOTE :: later)
              = Some []).
  { unfold extract_cds_translation_genbank.
    rewrite (search_leftmost _ _ _ _ _ Ha Kb Hn Ht (all_space_no_quote _ Hp)). cbn [nth].
    rewrite (remove_whitespace_all_space _ Hp). reflexivity. }
  split; [exact X|].
  rewrite (scrape_row _ _ _ _ _ Hj), Hr, X.
  pose proof (keyword_at_length _ Kb) as L.
  destruct (a ++ b ++ tag ++ payload ++ QUOTE :: later) eqn:E; [|reflexivity].
  apply (f_equal (@List.length char)) in E. rewrite !length_app in E. cbn in E. lia.
Qed.

Lemma scrape_blank_translation_witness :
  let content :=
    [] ++ lit "CDS  1..9 " ++ (lit "/translation=" ++ [QUOTE]) ++ (lit "  " ++ [NL; 9])
       ++ QUOTE :: [NL] in
  extract_cds_translation_genbank content = Some []
  /\ nth_error (rows_of (scrape_ncbi_sequences (fun _ _ _ => Ok content) [lit "AB123"] initial)) 0
     = Some (Row (mark (lit "AB123")) (lit "No encontrada en GenBank") NO_ENCONTRADA).
Proof.
  intros content.
  apply (scrape_blank_translation_is_not_found
           (fun _ _ _ => Ok content) [lit "AB123"] initial 0 (lit "AB123")
           [] (lit "CDS  1..9 ") (lit "/translation=" ++ [QUOTE]) (lit "  " ++ [NL; 9]) [NL]);
    vm_compute; reflexivity.
Defined.

(** The three kinds of rows of the wired pipeline. *)
Lemma wired_row_kinds (requests_get : nat -> str -> N -> outcome str)
    (i : nat) (accession : str) :
  let r := row_for (fun i => get_genbank_content (requests_get i))
                   (fun _ content => ([], Ok (extract_cds_translation_genbank content)))
                   i accession in
  r = fetch_error_row accession
  \/ r = not_found_row accession
  \/ (exists sequence,
         r = success_row accession sequence
         /\ sequence <> []
         /\ forallb (fun c => negb (is_space c)) sequence = true
         /\ no_quote sequence = true).
Proof.
  cbv zeta. unfold row_for, get_genbank_content.
  destruct (requests_get i (url_of accession) 15) as [content|e]; cbn [snd]; [|auto].
  destruct (truthy (Some content)) eqn:T; [|auto]. cbn [text_of snd].
  destruct (extract_cds_translation_genbank content) as [sq|] eqn:X; cbn [truthy]; [|auto].
  destruct sq as [|c sq]; [auto|]. right. right. exists (c :: sq). cbn [text_of].
  destruct (extract_some_payload _ _ X) as (front & p & back & _ & Hp & E).
  repeat split.
  - discriminate.
  - rewrite E. apply remove_whitespace_clean.
  - rewrite E. apply no_quote_remove_whitespace; exact Hp.
Qed.

(** X12. Every row of the wired pipeline is of one of three kinds: the
    retrieval-failure row, the not-found row, or a success row whose
    sequence is non-empty and holds neither whitespace nor a double
    quote.  The row with the text of an exception is never made. *)
Theorem scrape_rows_are_of_three_kinds
    (requests_get : nat -> str -> N -> outcome str)
    (accession_list : list str) (s : state) :
  Forall (fun r =>
            (SEQUENCE r = lit "Error obteniendo GenBank" /\ estado r = ERROR)
            \/ (SEQUENCE r = lit "No encontrada en GenBank" /\ estado r = NO_ENCONTRADA)
            \/ (estado r = EXITO
                /\ SEQUENCE r <> []
                /\ forallb (fun c => negb (is_space c)) (SEQUENCE r) = true
                /\ no_quote (SEQUENCE r) = true))
         (rows_of (scrape_ncbi_sequences requests_get accession_list s)).
Proof.
  unfold scrape_ncbi_sequences, rows_of. rewrite scrape_with_run. cbn [fst results].
  generalize 0%nat. induction accession_list as [|a rest IH]; intros i; cbn [rows_from].
  - constructor.
  - constructor; [|apply IH].
    destruct (wired_row_kinds requests_get i a) as [-> | [-> | (sq & -> & H)]]; auto.
Qed.

Lemma rows_from_app (fetch extract : nat -> str -> callee (option str))
    (l1 l2 : list str) (i : nat) :
  rows_from fetch extract i (l1 ++ l2)
  = rows_from fetch extract i l1
    ++ rows_from fetch extract (i + List.length l1) l2.
Proof.
  revert i. induction l1 as [|a l1 IH]; intros i; cbn [app rows_from List.length].
  - rewrite Nat.add_0_r. reflexivity.
  - rewrite IH. replace (S i + List.length l1)%nat with (i + S (List.length l1))%nat by lia.
    reflexivity.
Qed.

Lemma rows_from_shift (fetch extract : nat -> str -> callee (option str))
    (l : list str) (n i : nat) :
  rows_from fetch extract (n + i) l
  = rows_from (fun k => fetch (n + k)%nat) (fun k => extract (n + k)%nat) i l.
Proof.
  revert i. induction l as [|a l IH]; intros i; cbn [rows_from]; [reflexivity|].
  f_equal. rewrite <- IH. f_equal. lia.
Qed.

(** X13. A batch is the sum of its parts: the rows of a run over
    [l1 ++ l2] are the rows of a run over [l1] followed by the rows of
    a run over [l2] in which the network answers as it does for the
    items after [l1]. *)
Theorem scrape_of_concatenated_batches
    (requests_get : nat -> str -> N -> outcome str)
    (l1 l2 : list str) (s s1 s2 : state) :
  rows_of (scrape_ncbi_sequences requests_get (l1 ++ l2) s)
  = rows_of (scrape_ncbi_sequences requests_get l1 s1)
    ++ rows_of (scrape_ncbi_sequences
                  (fun i => requests_get (List.length l1 + i)%nat) l2 s2).
Proof.
  unfold scrape_ncbi_sequences, rows_of. rewrite !scrape_with_run. cbn [fst results].
  rewrite rows_from_app. f_equal. cbn [plus].
  rewrite <- (Nat.add_0_r (List.length l1)) at 1. apply rows_from_shift.
Qed.

(** X14. A request that succeeds with an empty body is handled like a
    failed one: the fetcher returns the empty text and prints nothing,
    and the row of the accession is the retrieval-failure row. *)
Theorem scrape_empty_body_is_fetch_error
    (requests_get : nat -> str -> N -> outcome str)
    (accession_list : list str) (s : state) (j : nat) (accession : str) :
  nth_error accession_list j = Some accession ->
  requests_get j (url_of accession) 15 = Ok [] ->
  get_genbank_content (requests_get j) accession = ([], Ok (Some []))
  /\ nth_error (rows_of (scrape_ncbi_sequences requests_get accession_list s)) j
     = Some (Row (mark accession) (lit "Error obteniendo GenBank") ERROR).
Proof.
  intros Hj Hr. split.
  - unfold get_genbank_content. rewrite Hr. reflexivity.
  - rewrite (scrape_row _ _ _ _ _ Hj), Hr. reflexivity.
Qed.

Lemma scrape_empty_body_witness :
  get_genbank_content (fun _ _ => Ok []) (lit "AB123") = ([], Ok (Some []))
  /\ nth_error (rows_of (scrape_ncbi_sequences (fun _ _ _ => Ok []) [lit "AB123"] initial)) 0
     = Some (Row (mark (lit "AB123")) (lit "Error obteniendo GenBank") ERROR).
Proof.
  apply (scrape_empty_body_is_fetch_error (fun _ _ _ => Ok []) [lit "AB123"] initial 0
           (lit "AB123")); reflexivity.
Defined.

(** ** The endpoint *)

Lemma str_eqb_eq (a b : str) : str_eqb a b = true <-> a = b.
Proof.
  revert b. induction a as [|x a IH]; intros [|y b]; cbn; split; try discriminate; auto.
  - intros H. apply andb_true_iff in H as [Hx H]. apply N.eqb_eq in Hx.
    apply IH in H. congruence.
  - intros H. injection H as -> ->. rewrite N.eqb_refl. apply IH. reflexivity.
Qed.

Lemma endswith_iff (s suffix : str) :
  endswith s suffix = true <-> exists base, s = base ++ suffix.
Proof.
  unfold endswith. split.
  - intros H. apply andb_true_iff in H as [_ H]. apply str_eqb_eq in H.
    remember (List.length s - List.length suffix)%nat as n.
    exists (firstn n s). rewrite <- H. symmetry. apply firstn_skipn.
  - intros [base ->]. rewrite length_app. apply andb_true_iff. split.
    + apply Nat.leb_le. lia.
    + replace (List.length base + List.length suffix - List.length suffix)%nat
        with (List.length base) by lia.
      rewrite skipn_app_length by reflexivity. apply str_eqb_eq. reflexivity.
Qed.

Section EndpointProofs.
Variable requests_get : nat -> str -> N -> outcome str.
Variable decode_utf8 : list N -> outcome str.
Variable uuid4 : str.
Variable gettempdir : str.
Variable path_join : str -> str -> str.
Variable to_csv : str -> list row -> outcome unit.

Lemma run_pipeline_run (accesiones : list str) (w : world) :
  run_pipeline requests_get accesiones w
  = (World (log (fst (scrape_ncbi_sequences requests_get accesiones (State [] (wlog w)))))
           (written w),
     Returned (rows_of (scrape_ncbi_sequences requests_get accesiones (State [] (wlog w))))).
Proof.
  unfold run_pipeline, rows_of, scrape_ncbi_sequences. rewrite scrape_with_run.
  reflexivity.
Qed.

Lemma pipeline_sleeps (accesiones : list str) :
  count_sleeps (log (fst (scrape_ncbi_sequences requests_get accesiones (State [] []))))
  = List.length accesiones.
Proof.
  unfold count_sleeps, scrape_ncbi_sequences. rewrite scrape_with_run.
  cbn [fst log app]. rewrite events_from_sleeps. apply repeat_length.
Qed.

Lemma leer_nonempty (texto : str) :
  forallb space_or_comma texto = false ->
  exists a rest, leer_accesiones_desde_contenido texto = a :: rest.
Proof.
  intros H. destruct (leer_accesiones_desde_contenido texto) as [|a rest] eqn:E.
  - apply leer_nil_iff in E. congruence.
  - exists a, rest. reflexivity.
Qed.
End EndpointProofs.

Section EndpointProperties.
Variable requests_get : nat -> str -> N -> outcome str.
Variable decode_utf8 : list N -> outcome str.
Variable uuid4 : str.
Variable gettempdir : str.
Variable path_join : str -> str -> str.
Variable to_csv : str -> list row -> outcome unit.

Let endpoint := extract_sequences requests_get decode_utf8 uuid4 gettempdir path_join to_csv.

(** X15. A file whose name does not end with the four characters .txt
    (the comparison is exact, an upper-case extension does not pass) is
    refused with status 400 before anything is read: the upload, the
    network and the file system are not touched. *)
Theorem endpoint_refuses_other_filenames
    (file_filename : str) (file_read : outcome (list N)) (w : world) :
  (forall base, file_filename <> base ++ lit ".txt") ->
  endpoint file_filename file_read w
  = (w, Raised (HTTPException 400 (lit "Solo se permiten archivos .txt"))).
Proof.
  intros H. unfold endpoint, extract_sequences.
  destruct (endswith file_filename (lit ".txt")) eqn:E; [|reflexivity].
  apply endswith_iff in E as [base E]. destruct (H base E).
Qed.

(** X16. A .txt upload whose text holds nothing but whitespace and
    commas is refused with status 400 (the [HTTPException] raised inside
    the [try] is not turned into a 500), and the pipeline is not run:
    nothing is logged, nothing is written. *)
Theorem endpoint_refuses_text_without_accessions
    (base : str) (bytes : list N) (texto : str) (w : world) :
  decode_utf8 bytes = Ok texto ->
  forallb space_or_comma texto = true ->
  endpoint (base ++ lit ".txt") (Ok bytes) w
  = (w, Raised (HTTPException 400
                  (lit "No se pudieron leer las accesiones del archivo"))).
Proof.
  intros Hd Ht. unfold endpoint, extract_sequences.
  rewrite (proj2 (endswith_iff _ _) (ex_intro _ base eq_refl)). cbn [negb].
  unfold except_handlers, wbind, wlift. rewrite Hd.
  rewrite (proj2 (leer_nil_iff texto) Ht). reflexivity.
Qed.

(** X17. When reading the upload or decoding it raises, the endpoint
    raises an [HTTPException] with status 500 whose detail ends with the
    text of the exception; no accession is processed. *)
Theorem endpoint_unreadable_upload_is_500
    (base : str) (file_read : outcome (list N)) (e : exn) (w : world) :
  file_read = Raise e
  \/ (exists bytes, file_read = Ok bytes /\ decode_utf8 bytes = Raise e) ->
  endpoint (base ++ lit ".txt") file_read w
  = (w, Raised (HTTPException 500 (lit "Error en el procesamiento: " ++ e))).
Proof.
  intros H. unfold endpoint, extract_sequences.
  rewrite (proj2 (endswith_iff _ _) (ex_intro _ base eq_refl)). cbn [negb].
  unfold except_handlers, wbind, wlift.
  destruct H as [-> | (bytes & -> & Hd)]; [reflexivity|]. rewrite Hd. reflexivity.
Qed.

Lemma endpoint_run_parsed (base : str) (bytes : list N) (texto : str) (w : world) :
  decode_utf8 bytes = Ok texto ->
  forallb space_or_comma texto = false ->
  endpoint (base ++ lit ".txt") (Ok bytes) w
  = let accesiones := leer_accesiones_desde_contenido texto in
    let r := scrape_ncbi_sequences requests_get accesiones (State [] (wlog w)) in
    let unique_id := firstn 8 uuid4 in
    let temp_output :=
      path_join gettempdir (lit "secuencias_" ++ unique_id ++ lit ".csv") in
    match to_csv temp_output (rows_of r) with
    | Ok _ =>
        (World (log (fst r)) (written w ++ [(temp_output, rows_of r)]),
         Returned (MkFileResponse
                     temp_output
                     (lit "secuencias_" ++ unique_id ++ lit ".csv")
                     (lit "text/csv")
                     [(lit "Content-Disposition",
                       lit "attachment; filename=secuencias_" ++ unique_id ++ lit ".csv")]))
    | Raise e =>
        (World (log (fst r)) (written w),
         Raised (HTTPException 500 (lit "Error en el procesamiento: " ++ e)))
    end.
Proof.
  intros Hd Ht. unfold endpoint, extract_sequences.
  rewrite (proj2 (endswith_iff _ _) (ex_intro _ base eq_refl)). cbn [negb].
  destruct (leer_nonempty texto Ht) as (a & rest & E).
  unfold except_handlers, wbind, wlift. rewrite Hd, E, <- E.
  rewrite run_pipeline_run. cbv zeta. unfold write_csv, wret.
  destruct (to_csv _ _); reflexivity.
Qed.

(** X18. The success path: for a .txt upload whose text holds at least
    one accession and a table writer that succeeds, the endpoint
    returns the file response for secuencias_<first 8 characters of the
    identifier>.csv in the temporary directory; exactly one table was
    written, at that path, with one row per parsed accession in order;
    and the pipeline slept once per accession. *)
Theorem endpoint_success
    (base : str) (bytes : list N) (texto : str) :
  decode_utf8 bytes = Ok texto ->
  forallb space_or_comma texto = false ->
  let accesiones := leer_accesiones_desde_contenido texto in
  let resultados := rows_of (scrape_ncbi_sequences requests_get accesiones initial) in
  let unique_id := firstn 8 uuid4 in
  let temp_output := path_join gettempdir (lit "secuencias_" ++ unique_id ++ lit ".csv") in
  to_csv temp_output resultados = Ok tt ->
  let run := endpoint (base ++ lit ".txt") (Ok bytes) fresh in
  snd run
  = Returned (MkFileResponse
                temp_output
                (lit "secuencias_" ++ unique_id ++ lit ".csv")
                (lit "text/csv")
                [(lit "Content-Disposition",
                  lit "attachment; filename=secuencias_" ++ unique_id ++ lit ".csv")])
  /\ written (fst run) = [(temp_output, resultados)]
  /\ map ID resultados = map mark accesiones
  /\ count_sleeps (wlog (fst run)) = List.length accesiones.
Proof.
  intros Hd Ht accesiones resultados unique_id temp_output Hc run.
  subst run. rewrite (endpoint_run_parsed base bytes texto fresh Hd Ht).
  cbv zeta. cbn [wlog fresh]. fold initial. fold accesiones. fold resultados.
  fold unique_id. fold temp_output. rewrite Hc. cbn [fst snd written wlog app].
  repeat split.
  - subst resultados. unfold scrape_ncbi_sequences, rows_of. rewrite scrape_with_run.
    apply rows_from_ID.
  - apply pipeline_sleeps.
Qed.


(** X20. Whatever the upload and the collaborators do, the endpoint
    either returns a file response or raises an [HTTPException] with
    status 400 or 500; no other exception leaves it. *)
Theorem endpoint_raises_only_400_or_500
    (file_filename : str) (file_read : outcome (list N)) (w : world) :
  let r := snd (endpoint file_filename file_read w) in
  (exists response, r = Returned response)
  \/ (exists detail, r = Raised (HTTPException 400 detail))
  \/ (exists detail, r = Raised (HTTPException 500 detail)).
Proof.
  cbv zeta. unfold endpoint, extract_sequences.
  destruct (endswith file_filename (lit ".txt")); cbn [negb];
    [|right; left; eexists; reflexivity].
  unfold except_handlers, wbind, wlift, wraise, wret, write_csv.
  destruct file_read as [bytes|e]; [|right; right; eexists; reflexivity].
  destruct (decode_utf8 bytes) as [texto|e]; [|right; right; eexists; reflexivity].
  destruct (leer_accesiones_desde_contenido texto) as [|a rest] eqn:E;
    [right; left; eexists; reflexivity|].
  rewrite run_pipeline_run.
  destruct (to_csv _ _) as [u|e]; [left | right; right]; eexists; reflexivity.
Qed.
End EndpointProperties.

Lemma endpoint_refuses_other_filenames_witness :
  extract_sequences (fun _ _ _ => Raise (lit "unreachable")) (fun b => Ok b)
    (lit "3f2b8c1e-0000-4000-8000-000000000000") (lit "/tmp")
    (fun d f => d ++ lit "/" ++ f) (fun _ _ => Ok tt)
    (lit "accs.TXT") (Ok (lit "AB123")) fresh
  = (fresh, Raised (HTTPException 400 (lit "Solo se permiten archivos .txt"))).
Proof.
  apply (endpoint_refuses_other_filenames
           (fun _ _ _ => Raise (lit "unreachable")) (fun b => Ok b)
           (lit "3f2b8c1e-0000-4000-8000-000000000000") (lit "/tmp")
           (fun d f => d ++ lit "/" ++ f) (fun _ _ => Ok tt)
           (lit "accs.TXT") (Ok (lit "AB123")) fresh).
  intros base E.
  pose proof (proj2 (endswith_iff (lit "accs.TXT") (lit ".txt")) (ex_intro _ base E)) as X.
  vm_compute in X. discriminate X.
Defined.

Lemma endpoint_refuses_text_without_accessions_witness :
  extract_sequences (fun _ _ _ => Raise (lit "unreachable")) (fun b => Ok b)
    (lit "3f2b8c1e-0000-4000-8000-000000000000") (lit "/tmp")
    (fun d f => d ++ lit "/" ++ f) (fun _ _ => Ok tt)
    (lit "accs" ++ lit ".txt") (Ok (lit " , ," ++ [NL])) fresh
  = (fresh, Raised (HTTPException 400
                      (lit "No se pudieron leer las accesiones del archivo"))).
Proof.
  apply (endpoint_refuses_text_without_accessions
           (fun _ _ _ => Raise (lit "unreachable")) (fun b => Ok b)
           (lit "3f2b8c1e-0000-4000-8000-000000000000") (lit "/tmp")
           (fun d f => d ++ lit "/" ++ f) (fun _ _ => Ok tt)
           (lit "accs") (lit " , ," ++ [NL]) (lit " , ," ++ [NL]) fresh);
    vm_compute; reflexivity.
Defined.

Lemma endpoint_unreadable_upload_witness :
  extract_sequences (fun _ _ _ => Raise (lit "unreachable"))
    (fun _ => Raise (lit "invalid start byte"))
    (lit "3f2b8c1e-0000-4000-8000-000000000000") (lit "/tmp")
    (fun d f => d ++ lit "/" ++ f) (fun _ _ => Ok tt)
    (lit "accs" ++ lit ".txt") (Ok [255; 254]) fresh
  = (fresh, Raised (HTTPException 500
                      (lit "Error en el procesamiento: " ++ lit "invalid start byte"))).
Proof.
  apply (endpoint_unreadable_upload_is_500
           (fun _ _ _ => Raise (lit "unreachable"))
           (fun _ => Raise (lit "invalid start byte"))
           (lit "3f2b8c1e-0000-4000-8000-000000000000") (lit "/tmp")
           (fun d f => d ++ lit "/" ++ f) (fun _ _ => Ok tt)
           (lit "accs") (Ok [255; 254]) (lit "invalid start byte") fresh).
  right. exists [255; 254]. split; reflexivity.
Defined.

Lemma endpoint_success_witness :
  let requests_get := fun (_ : nat) (_ : str) (_ : N) => @Raise str (lit "timed out") in
  let run :=
    extract_sequences requests_get (fun b => Ok b)
      (lit "3f2b8c1e-0000-4000-8000-000000000000") (lit "/tmp")
      (fun d f => d ++ lit "/" ++ f) (fun _ _ => Ok tt)
      (lit "accs" ++ lit ".txt") (Ok (lit "AB123, CD456")) fresh in
  snd run
  = Returned (MkFileResponse
                (lit "/tmp/secuencias_3f2b8c1e.csv")
                (lit "secuencias_3f2b8c1e.csv")
                (lit "text/csv")
                [(lit "Content-Disposition",
                  lit "attachment; filename=secuencias_3f2b8c1e.csv")])
  /\ written (fst run)
     = [(lit "/tmp/secuencias_3f2b8c1e.csv",
         [fetch_error_row (lit "AB123"); fetch_error_row (lit "CD456")])]
  /\ map ID [fetch_error_row (lit "AB123"); fetch_error_row (lit "CD456")]
     = map mark [lit "AB123"; lit "CD456"]
  /\ count_sleeps (wlog (fst run)) = 2%nat.
Proof.
  intros requests_get run.
  apply (endpoint_success requests_get (fun b => Ok b)
           (lit "3f2b8c1e-0000-4000-8000-000000000000") (lit "/tmp")
           (fun d f => d ++ lit "/" ++ f) (fun _ _ => Ok tt)
           (lit "accs") (lit "AB123, CD456") (lit "AB123, CD456"));
    vm_compute; reflexivity.
Defined.

